(** * SingleLinkedList<Type>: a shallow embedding of single-linked-list.h

    The container is modelled over an explicit memory.  List objects (the
    sentinel [head_] and the counter [size_]) and the nodes created by
    [new] live in two finite maps; a node pointer is null, the address of
    a sentinel, or the address of a node.  Every member function is a
    computation in a small state-and-error monad whose outcomes are a
    result with the new memory, a failed [assert], undefined behaviour
    (a null or dangling pointer is followed, a sentinel is deleted), or a
    computation that was cut off.  [assert] is compiled in or out by the
    flag [NDEBUG], as in <cassert>.  Allocation never fails, and [size_t]
    is 64 bits wide. *)

From stdpp Require Import gmap list fin_maps fin_sets numbers.

Abbreviation addr := positive.

(** ** Pointers *)

(** A [Node*] is null, the address of the sentinel embedded in a list
  object, or the address of a node on the free store. *)
Inductive NodePtr : Type :=
| nullptr
| head_of (l : addr)
| on_heap (a : addr).

Global Instance NodePtr_eq_dec : EqDecision NodePtr.
Proof. solve_decision. Defined.

(** ** size_t (64 bits) *)

Definition SIZE_MAX : N := 2 ^ 64 - 1.

(** [++s] and [--s] on an unsigned 64-bit counter. *)
Definition size_t_incr (s : N) : N := ((s + 1) mod 2 ^ 64)%N.
Definition size_t_decr (s : N) : N := ((s + SIZE_MAX) mod 2 ^ 64)%N.

Section SingleLinkedList.

(** The template parameter, with its default constructor, [==] and [<]. *)
Context {Type_ : Type} `{!Inhabited Type_}.
Variable Type_eq : Type_ → Type_ → bool.
Variable Type_lt : Type_ → Type_ → bool.

(** Whether the translation unit is compiled with assertions disabled. *)
Variable NDEBUG : bool.

(** ** Data *)

Record Node : Type := mkNode {
  value : Type_;
  next_node : NodePtr
}.

(** [Node() = default]. *)
Definition Node_default : Node :=
  {| value := inhabitant; next_node := nullptr |}.

Record SingleLinkedList : Type := mkList {
  head_ : Node;
  size_ : N
}.

Record Memory : Type := mkMemory {
  lists : gmap positive SingleLinkedList;
  heap : gmap positive Node
}.

Definition empty_memory : Memory := {| lists := ∅; heap := ∅ |}.

(** ** Computations *)

Inductive Outcome (A : Type) : Type :=
| Ok (a : A) (m : Memory)
| AssertionFailed
| Undefined
| OutOfFuel.
Global Arguments Ok {A} a m.
Global Arguments AssertionFailed {A}.
Global Arguments Undefined {A}.
Global Arguments OutOfFuel {A}.

Definition M (A : Type) : Type := Memory → Outcome A.

Definition ret {A} (a : A) : M A := λ m, Ok a m.

Definition bind {A B} (c : M A) (k : A → M B) : M B := λ m,
  match c m with
  | Ok a m' => k a m'
  | AssertionFailed => AssertionFailed
  | Undefined => Undefined
  | OutOfFuel => OutOfFuel
  end.

Definition undefined {A} : M A := λ _, Undefined.
Definition out_of_fuel {A} : M A := λ _, OutOfFuel.

Definition assertion_failed {A} : M A := λ _, AssertionFailed.

(** [assert(c)]: with [NDEBUG] the condition is not even evaluated. *)
Definition assert_ (c : M bool) : M unit :=
  if NDEBUG then ret tt
  else bind c (λ b, if b : bool then ret tt else assertion_failed).

Local Notation "'let*' x := c 'in' k" := (bind c (λ x, k))
  (at level 10, x binder, c at level 99, k at level 200).
Local Notation "c ;; k" := (bind c (λ _, k))
  (at level 100, k at level 200, right associativity).

(** ** Memory accesses *)

(** Read [*p]. *)
Definition load (p : NodePtr) : M Node := λ m,
  match p with
  | nullptr => Undefined
  | head_of l =>
      match lists m !! l with
      | Some o => Ok (head_ o) m
      | None => Undefined
      end
  | on_heap a =>
      match heap m !! a with
      | Some n => Ok n m
      | None => Undefined
      end
  end.

(** [p->next_node = q]. *)
Definition store_next_node (p q : NodePtr) : M unit := λ m,
  match p with
  | nullptr => Undefined
  | head_of l =>
      match lists m !! l with
      | Some o =>
          Ok tt {| lists := <[l := {| head_ := {| value := value (head_ o);
                                                  next_node := q |};
                                      size_ := size_ o |}]> (lists m);
                   heap := heap m |}
      | None => Undefined
      end
  | on_heap a =>
      match heap m !! a with
      | Some n =>
          Ok tt {| lists := lists m;
                   heap := <[a := {| value := value n; next_node := q |}]>
                             (heap m) |}
      | None => Undefined
      end
  end.

(** [new Node(v, next)]: the node is placed at an address that is not in
    use. *)
Definition new_Node (v : Type_) (next : NodePtr) : M NodePtr := λ m,
  let a := fresh (dom (heap m)) in
  Ok (on_heap a)
     {| lists := lists m;
        heap := <[a := {| value := v; next_node := next |}]> (heap m) |}.

(** [delete p]. *)
Definition delete_Node (p : NodePtr) : M unit := λ m,
  match p with
  | nullptr => Ok tt m
  | head_of _ => Undefined
  | on_heap a =>
      match heap m !! a with
      | Some _ => Ok tt {| lists := lists m; heap := delete a (heap m) |}
      | None => Undefined
      end
  end.

(** Read and write [this->size_]. *)
Definition read_size_ (this : addr) : M N := λ m,
  match lists m !! this with
  | Some o => Ok (size_ o) m
  | None => Undefined
  end.

Definition write_size_ (this : addr) (s : N) : M unit := λ m,
  match lists m !! this with
  | Some o =>
      Ok tt {| lists := <[this := {| head_ := head_ o; size_ := s |}]>
                          (lists m);
               heap := heap m |}
  | None => Undefined
  end.

(** [++size_] and [--size_]. *)
Definition incr_size_ (this : addr) : M unit :=
  let* s := read_size_ this in
  write_size_ this (size_t_incr s).

Definition decr_size_ (this : addr) : M unit :=
  let* s := read_size_ this in
  write_size_ this (size_t_decr s).

(** ** BasicIterator *)

Record BasicIterator : Type := mkIter { node_ : NodePtr }.

(** [operator==] and [operator!=] of iterators. *)
Definition Iterator_eq (a b : BasicIterator) : bool :=
  bool_decide (node_ a = node_ b).
Definition Iterator_ne (a b : BasicIterator) : bool :=
  negb (bool_decide (node_ a = node_ b)).

(** [operator++]. *)
Definition Iterator_incr (it : BasicIterator) : M BasicIterator :=
  assert_ (ret (negb (bool_decide (node_ it = nullptr)))) ;;
  let* n := load (node_ it) in
  ret {| node_ := next_node n |}.

(** [operator*]. *)
Definition Iterator_deref (it : BasicIterator) : M Type_ :=
  assert_ (ret (negb (bool_decide (node_ it = nullptr)))) ;;
  let* n := load (node_ it) in
  ret (value n).

(** ** Member functions *)

(** Storage for a list object whose [head_] is default-constructed and
    whose [size_] starts as [s]. *)
Definition new_object (s : N) : M addr := λ m,
  let this := fresh (dom (lists m)) in
  Ok this {| lists := <[this := {| head_ := Node_default; size_ := s |}]>
                        (lists m);
             heap := heap m |}.

(** The storage of a list object is released. *)
Definition delete_object (this : addr) : M unit := λ m,
  match lists m !! this with
  | Some _ => Ok tt {| lists := delete this (lists m); heap := heap m |}
  | None => Undefined
  end.

(** [SingleLinkedList() : size_(0) {}]. *)
Definition SingleLinkedList_new : M addr := new_object 0.

(** [Iterator begin()] and [Iterator end()], the overloads chosen on a
    list that is not const. *)
Definition begin_ (this : addr) : M BasicIterator :=
  let* h := load (head_of this) in
  ret {| node_ := next_node h |}.

Definition end_ : BasicIterator := {| node_ := nullptr |}.

(** [ConstIterator begin() const] returns [cbegin()], and
    [ConstIterator cbegin() const] returns [begin()]: inside a const
    member function [this] is const, so that call selects
    [begin() const] again.  The two functions call each other; [depth]
    is the number of nested calls that are followed. *)
Fixpoint begin_const (depth : nat) (this : addr) : M BasicIterator :=
  match depth with
  | O => out_of_fuel
  | S depth' => cbegin depth' this
  end
with cbegin (depth : nat) (this : addr) : M BasicIterator :=
  match depth with
  | O => out_of_fuel
  | S depth' => begin_const depth' this
  end.

(** The same holds of [end() const] and [cend() const]. *)
Fixpoint end_const (depth : nat) (this : addr) : M BasicIterator :=
  match depth with
  | O => out_of_fuel
  | S depth' => cend depth' this
  end
with cend (depth : nat) (this : addr) : M BasicIterator :=
  match depth with
  | O => out_of_fuel
  | S depth' => end_const depth' this
  end.

Definition before_begin (this : addr) : BasicIterator :=
  {| node_ := head_of this |}.

Definition cbefore_begin (this : addr) : BasicIterator :=
  {| node_ := head_of this |}.

Definition before_begin_const (this : addr) : BasicIterator :=
  cbefore_begin this.

Definition GetSize (this : addr) : M N := read_size_ this.

Definition IsEmpty (this : addr) : M bool :=
  let* s := read_size_ this in
  ret (bool_decide (s = 0%N)).

Definition PushFront (this : addr) (v : Type_) : M unit :=
  let* h := load (head_of this) in
  let* p := new_Node v (next_node h) in
  store_next_node (head_of this) p ;;
  incr_size_ this.

Definition PopFront (this : addr) : M unit :=
  assert_ (let* e := IsEmpty this in ret (negb e)) ;;
  let* h := load (head_of this) in
  let deleted_node := next_node h in
  let* d := load deleted_node in
  store_next_node (head_of this) (next_node d) ;;
  delete_Node deleted_node ;;
  decr_size_ this.

(** The number of nodes on the free store: no walk along distinct nodes
    is longer, which bounds the loops below. *)
Definition heap_size : M nat := λ m, Ok (size (heap m)) m.

Fixpoint Clear_loop (fuel : nat) (this : addr) : M unit :=
  match fuel with
  | O => out_of_fuel
  | S fuel' =>
      let* h := load (head_of this) in
      if bool_decide (next_node h = nullptr) then ret tt
      else
        let temp := next_node h in
        let* t := load temp in
        store_next_node (head_of this) (next_node t) ;;
        delete_Node temp ;;
        decr_size_ this ;;
        Clear_loop fuel' this
  end.

Definition Clear (this : addr) : M unit :=
  let* n := heap_size in
  Clear_loop (S n) this.

(** [~SingleLinkedList()]. *)
Definition SingleLinkedList_destroy (this : addr) : M unit :=
  Clear this ;;
  delete_object this.

Definition swap (this other : addr) : M unit :=
  let* h1 := load (head_of this) in
  let* h2 := load (head_of other) in
  store_next_node (head_of this) (next_node h2) ;;
  store_next_node (head_of other) (next_node h1) ;;
  let* s1 := read_size_ this in
  let* s2 := read_size_ other in
  write_size_ this s2 ;;
  write_size_ other s1.

Definition InsertAfter (this : addr) (pos : BasicIterator) (v : Type_)
  : M BasicIterator :=
  assert_ (ret (Iterator_ne pos end_)) ;;
  let* p := new_Node v nullptr in
  store_next_node (node_ pos) p ;;
  incr_size_ this ;;
  let* n := load (node_ pos) in
  ret {| node_ := next_node n |}.

Definition EraseAfter (this : addr) (pos : BasicIterator)
  : M BasicIterator :=
  assert_ (let* e := IsEmpty this in ret (negb e)) ;;
  assert_ (ret (negb (bool_decide (node_ pos = nullptr)))) ;;
  let* n := load (node_ pos) in
  let* nn := load (next_node n) in
  let temp := next_node nn in
  delete_Node (next_node n) ;;
  store_next_node (node_ pos) temp ;;
  decr_size_ this ;;
  let* n' := load (node_ pos) in
  ret {| node_ := next_node n' |}.

(** ** Input iterators

    [AddToHead] is a template over the iterator type; what it needs from
    it is [!=], [*] and [++].  [input_bound] has no counterpart in the
    source: it bounds the number of steps from [from] to [to] and is the
    fuel of the loop. *)
Class InputIterator (I : Type) : Type := {
  input_ne : I → I → bool;
  input_deref : I → M Type_;
  input_incr : I → M I;
  input_bound : I → I → M nat
}.

(** A list iterator: a walk along distinct nodes visits at most every
    node of the free store. *)
Global Instance BasicIterator_input : InputIterator BasicIterator := {
  input_ne := Iterator_ne;
  input_deref := Iterator_deref;
  input_incr := Iterator_incr;
  input_bound := λ _ _, let* n := heap_size in ret (S n)
}.

(** A [const Type*] into the array behind a [std::initializer_list]. *)
Record ArrayPtr : Type := mkArrayPtr {
  array : list Type_;
  index : nat
}.

Global Instance ArrayPtr_input : InputIterator ArrayPtr := {
  input_ne := λ p q, negb (bool_decide (index p = index q));
  input_deref := λ p,
    match array p !! index p with
    | Some v => ret v
    | None => undefined
    end;
  input_incr := λ p, ret {| array := array p; index := S (index p) |};
  input_bound := λ p q, ret (S (index q - index p))
}.

Definition initializer_list_begin (values : list Type_) : ArrayPtr :=
  {| array := values; index := 0 |}.
Definition initializer_list_end (values : list Type_) : ArrayPtr :=
  {| array := values; index := length values |}.

(** The [while (from != to)] loop of [AddToHead].  A [Node**] always
    addresses the [next_node] field of some node and is represented by
    the pointer to that node. *)
Fixpoint AddToHead_loop {I} `{!InputIterator I} (fuel : nat) (tmp : addr)
    (node_ptr : NodePtr) (from to : I) : M unit :=
  match fuel with
  | O => out_of_fuel
  | S fuel' =>
      if input_ne from to then
        assert_ (let* n := load node_ptr in
                 ret (bool_decide (next_node n = nullptr))) ;;
        let* v := input_deref from in
        let* p := new_Node v nullptr in
        store_next_node node_ptr p ;;
        incr_size_ tmp ;;
        let* n := load node_ptr in
        let node_ptr' := next_node n in
        let* from' := input_incr from in
        AddToHead_loop fuel' tmp node_ptr' from' to
      else ret tt
  end.

Definition AddToHead {I} `{!InputIterator I} (this : addr) (from to : I)
  : M unit :=
  let* tmp := SingleLinkedList_new in
  let* fuel := input_bound from to in
  AddToHead_loop fuel tmp (head_of tmp) from to ;;
  swap this tmp ;;
  SingleLinkedList_destroy tmp.

(** [SingleLinkedList(std::initializer_list<Type> values)]; [size_] has
    no initializer, [garbage] is what the storage happens to hold. *)
Definition SingleLinkedList_init (garbage : N) (values : list Type_)
  : M addr :=
  let* this := new_object garbage in
  AddToHead this (initializer_list_begin values)
            (initializer_list_end values) ;;
  ret this.

(** [SingleLinkedList(const SingleLinkedList& other)]: [size_] is
    initialised from [other], then asserted to be zero; [other] is
    const, so the range comes from [begin() const] and [end() const]. *)
Definition SingleLinkedList_copy (depth : nat) (other : addr) : M addr :=
  let* s := read_size_ other in
  let* this := new_object s in
  assert_ (let* s' := read_size_ this in
           let* h := load (head_of this) in
           ret (bool_decide (s' = 0%N)
                && bool_decide (next_node h = nullptr))) ;;
  let* b := begin_const depth other in
  let* e := end_const depth other in
  AddToHead this b e ;;
  ret this.

(** [operator=]. *)
Definition assign (depth : nat) (this rhs : addr) : M unit :=
  if bool_decide (this ≠ rhs) then
    let* temp := SingleLinkedList_copy depth rhs in
    swap this temp ;;
    SingleLinkedList_destroy temp
  else ret tt.

(** ** <algorithm>

    The two standard algorithms the operators call, written as the loops
    the C++ standard describes, over list iterators and the element
    type's [==] and [<]. *)

(** [std::equal(first1, last1, first2)]. *)
Fixpoint std_equal_loop (fuel : nat) (first1 last1 first2 : BasicIterator)
  : M bool :=
  match fuel with
  | O => out_of_fuel
  | S fuel' =>
      if Iterator_ne first1 last1 then
        let* x := Iterator_deref first1 in
        let* y := Iterator_deref first2 in
        if Type_eq x y then
          let* first1' := Iterator_incr first1 in
          let* first2' := Iterator_incr first2 in
          std_equal_loop fuel' first1' last1 first2'
        else ret false
      else ret true
  end.

Definition std_equal (first1 last1 first2 : BasicIterator) : M bool :=
  let* n := heap_size in
  std_equal_loop (S n) first1 last1 first2.

(** [std::lexicographical_compare(first1, last1, first2, last2)]. *)
Fixpoint lexicographical_compare_loop (fuel : nat)
    (first1 last1 first2 last2 : BasicIterator) : M bool :=
  match fuel with
  | O => out_of_fuel
  | S fuel' =>
      if Iterator_ne first1 last1 && Iterator_ne first2 last2 then
        let* x := Iterator_deref first1 in
        let* y := Iterator_deref first2 in
        if Type_lt x y then ret true
        else if Type_lt y x then ret false
        else
          let* first1' := Iterator_incr first1 in
          let* first2' := Iterator_incr first2 in
          lexicographical_compare_loop fuel' first1' last1 first2' last2
      else ret (Iterator_eq first1 last1 && Iterator_ne first2 last2)
  end.

Definition lexicographical_compare
    (first1 last1 first2 last2 : BasicIterator) : M bool :=
  let* n := heap_size in
  lexicographical_compare_loop (S n) first1 last1 first2 last2.

(** ** Comparison operators of lists *)

(** [operator==]: the test of the sizes, and, only when they agree,
    [std::equal(lhs.cbegin(), lhs.cend(), rhs.cbegin())].  The return
    statement of the source has the tokens [() && &&] between these two
    operands and is not valid C++ as it stands; this definition is the
    reading of it as their conjunction, and only what does not depend on
    that reading (the call of [cbegin()] when the sizes agree) is relied
    on below. *)
Definition operator_eq (depth : nat) (lhs rhs : addr) : M bool :=
  let* s1 := GetSize lhs in
  let* s2 := GetSize rhs in
  if bool_decide (s1 = s2) then
    let* b1 := cbegin depth lhs in
    let* e1 := cend depth lhs in
    let* b2 := cbegin depth rhs in
    std_equal b1 e1 b2
  else ret false.

Definition operator_ne (depth : nat) (lhs rhs : addr) : M bool :=
  let* b := operator_eq depth lhs rhs in
  ret (negb b).

(** Both operands are const references: [begin() const], [end() const]. *)
Definition operator_lt (depth : nat) (lhs rhs : addr) : M bool :=
  let* b1 := begin_const depth lhs in
  let* e1 := end_const depth lhs in
  let* b2 := begin_const depth rhs in
  let* e2 := end_const depth rhs in
  lexicographical_compare b1 e1 b2 e2.

Definition operator_le (depth : nat) (lhs rhs : addr) : M bool :=
  let* b := operator_lt depth rhs lhs in
  ret (negb b).

Definition operator_gt (depth : nat) (lhs rhs : addr) : M bool :=
  operator_lt depth rhs lhs.

(** As written: both operands of [<] are [lhs]. *)
Definition operator_ge (depth : nat) (lhs rhs : addr) : M bool :=
  let* b := operator_lt depth lhs lhs in
  ret (negb b).

(** ** What a list holds

    The nodes reachable from [head_] through [next_node], with their
    addresses, and the views of a list object derived from them. *)
Fixpoint walk (fuel : nat) (h : gmap positive Node) (p : NodePtr)
  : option (list (positive * Type_)) :=
  match fuel with
  | O => None
  | S fuel' =>
      match p with
      | nullptr => Some []
      | head_of _ => None
      | on_heap a =>
          match h !! a with
          | Some n =>
              match walk fuel' h (next_node n) with
              | Some cs => Some ((a, value n) :: cs)
              | None => None
              end
          | None => None
          end
      end
  end.

Definition cells (m : Memory) (this : addr)
  : option (list (positive * Type_)) :=
  match lists m !! this with
  | Some o => walk (S (size (heap m))) (heap m) (next_node (head_ o))
  | None => None
  end.

Definition elements (m : Memory) (this : addr) : option (list Type_) :=
  match cells m this with
  | Some cs => Some cs.*2
  | None => None
  end.

(** The representation invariant: the chain ends in [nullptr] and
    [size_] counts its nodes. *)
Definition well_formed (m : Memory) (this : addr) : bool :=
  match lists m !! this, cells m this with
  | Some o, Some cs =>
      bool_decide (size_ o = N.of_nat (length cs))
      && bool_decide (size_ o ≤ SIZE_MAX)%N
  | _, _ => false
  end.

(** The place of an iterator in a list: [0] for [before_begin()], [S i]
    for the node of index [i]. *)
Definition position (m : Memory) (this : addr) (pos : BasicIterator)
  : option nat :=
  match node_ pos with
  | nullptr => None
  | head_of l => if bool_decide (l = this) then Some 0 else None
  | on_heap a =>
      match cells m this with
      | Some cs =>
          match list_find (λ c, c.1 = a) cs with
          | Some (i, _) => Some (S i)
          | None => None
          end
      | None => None
      end
  end.

(** The pointer to the first node of a chain of cells. *)
Definition first_ptr (cs : list (positive * Type_)) : NodePtr :=
  match cs with
  | [] => nullptr
  | c :: _ => on_heap c.1
  end.

(** The pointer to the node that owns the last link of a list: its last
  node, or the sentinel when it has no node. *)
Definition last_ptr (this : addr) (cs : list (positive * Type_)) : NodePtr :=
  match list.last cs with
  | Some c => on_heap c.1
  | None => head_of this
  end.

(** [seg h p cs q]: following [next_node] from [p] passes exactly the
    cells [cs] and arrives at [q]. *)
Fixpoint seg (h : gmap positive Node) (p : NodePtr)
    (cs : list (positive * Type_)) (q : NodePtr) : Prop :=
  match cs with
  | [] => p = q
  | c :: cs' =>
      p = on_heap c.1 ∧
      ∃ n, h !! c.1 = Some n ∧ value n = c.2 ∧ seg h (next_node n) cs' q
  end.

Definition chain (h : gmap positive Node) (p : NodePtr)
    (cs : list (positive * Type_)) : Prop :=
  seg h p cs nullptr.

(** [operator++(int)]: the iterator moves on, its former value is
  returned.  The result is the pair of the returned iterator and the
  iterator as it is afterwards. *)
Definition Iterator_post_incr (it : BasicIterator)
  : M (BasicIterator * BasicIterator) :=
  assert_ (ret (negb (bool_decide (node_ it = nullptr)))) ;;
  let old_value := it in
  let* it' := Iterator_incr it in
  ret (old_value, it').

(** The non-member [swap(lhs, rhs)], which calls [lhs.swap(rhs)]. *)
Definition swap_nonmember (lhs rhs : addr) : M unit := swap lhs rhs.

(** The iterator of a place in a list with cells [cs]: [before_begin()]
  at [0], the node of index [i] at [S i], and [end()] past the last
  node. *)
Definition iterator_at (this : addr) (cs : list (positive * Type_))
    (k : nat) : BasicIterator :=
  match k with
  | O => before_begin this
  | S i => {| node_ := first_ptr (drop i cs) |}
  end.

End SingleLinkedList.

Notation "'let*' x := c 'in' k" := (bind c (λ x, k))
(at level 10, x binder, c at level 99, k at level 200).
Notation "c ;; k" := (bind c (λ _, k))
(at level 100, k at level 200, right associativity).

(** * Sample lists of integers

  Each memory is what the constructors leave when run from the empty
  memory with assertions enabled; the first list object is at address
  [1], the second at address [2]. *)
Module Samples.

Definition memory_after {A} (c : M (Type_ := Z) A) : Memory :=
  match c empty_memory with
  | Ok _ m => m
  | _ => empty_memory
  end.

(** A single empty list. *)
Definition empty_list : Memory :=
  memory_after SingleLinkedList_new.

(** The list [{1}]. *)
Definition list_1 : Memory :=
  memory_after (SingleLinkedList_init false 0 [1%Z]).

(** The list [{1, 2}]. *)
Definition list_1_2 : Memory :=
  memory_after (SingleLinkedList_init false 0 [1%Z; 2%Z]).

(** The list [{1, 2, 3}]. *)
Definition list_1_2_3 : Memory :=
  memory_after (SingleLinkedList_init false 0 [1%Z; 2%Z; 3%Z]).

(** The lists [{1}] and [{2}]. *)
Definition lists_1_and_2 : Memory :=
  memory_after (let* _ := SingleLinkedList_init false 0 [1%Z] in
                SingleLinkedList_init false 0 [2%Z]).

(** Two lists [{1}]. *)
Definition lists_1_and_1 : Memory :=
  memory_after (let* _ := SingleLinkedList_init false 0 [1%Z] in
                SingleLinkedList_init false 0 [1%Z]).

(** The cells of the lists [{1, 2, 3}] and [{1, 2}]: the node at
  address [i] holds [i]. *)
Definition cells_1_2_3 : list (positive * Z) :=
  [(1%positive, 1%Z); (2%positive, 2%Z); (3%positive, 3%Z)].
Definition cells_1_2 : list (positive * Z) :=
  [(1%positive, 1%Z); (2%positive, 2%Z)].

(** The lists [{1, 2}] and [{3}]. *)
Definition lists_1_2_and_3 : Memory :=
  memory_after (let* _ := SingleLinkedList_init false 0 [1%Z; 2%Z] in
                SingleLinkedList_init false 0 [3%Z]).

End Samples.

(** * Properties *)

Section Properties.

Context {Type_ : Type} `{!Inhabited Type_}.
Variable Type_eq : Type_ → Type_ → bool.
Variable Type_lt : Type_ → Type_ → bool.
Variable NDEBUG : bool.

Implicit Types (m : @Memory Type_) (this : positive) (v : Type_).
Implicit Types (h : gmap positive (@Node Type_)).
Implicit Types (cs : list (positive * Type_)) (p q : NodePtr).

(** ** The monad *)

Lemma bind_Ok {A B} (c : M A) (k : A → M B) m a m' :
  c m = Ok a m' → bind c k m = k a m'.
Proof. unfold bind. by intros ->. Qed.

Lemma assert_holds (c : M bool) m :
  c m = Ok true m → assert_ NDEBUG c m = Ok tt m.
Proof.
  intros Hc. unfold assert_. destruct NDEBUG; [done|].
  by rewrite (bind_Ok _ _ _ _ _ Hc).
Qed.

Lemma assert_outcome (c : M bool) m b :
  c m = Ok b m →
  assert_ NDEBUG c m = if NDEBUG || b then Ok tt m else AssertionFailed.
Proof.
  intros Hc. unfold assert_. destruct NDEBUG; [done|].
  rewrite (bind_Ok _ _ _ _ _ Hc). by destruct b.
Qed.

(** ** size_t *)

Lemma size_t_decr_incr (s : N) :
  (s < SIZE_MAX)%N → size_t_decr (size_t_incr s) = s.
Proof.
  unfold size_t_decr, size_t_incr, SIZE_MAX. intros Hs.
  rewrite (N.mod_small (s + 1)) by lia.
  replace (s + 1 + (2 ^ 64 - 1))%N with (s + 1 * 2 ^ 64)%N by lia.
  rewrite N.Div0.mod_add. apply N.mod_small. lia.
Qed.

Lemma size_t_incr_nonzero (s : N) :
  (s < SIZE_MAX)%N → size_t_incr s ≠ 0%N.
Proof.
  unfold size_t_incr, SIZE_MAX. intros Hs.
  rewrite N.mod_small by lia. lia.
Qed.

Lemma size_t_decr_pos (s : N) :
  (0 < s ≤ SIZE_MAX)%N → size_t_decr s = (s - 1)%N.
Proof.
  unfold size_t_decr, SIZE_MAX. intros Hs.
  replace (s + (2 ^ 64 - 1))%N with (s - 1 + 1 * 2 ^ 64)%N by lia.
  rewrite N.Div0.mod_add. apply N.mod_small. lia.
Qed.

(** ** Fresh addresses *)

Lemma fresh_heap_None h : h !! fresh (dom h) = None.
Proof. apply not_elem_of_dom, is_fresh. Qed.

(** ** Memory accesses on a known memory *)

Lemma load_head this o m :
  lists m !! this = Some o → load (head_of this) m = Ok (head_ o) m.
Proof. unfold load. by intros ->. Qed.

Lemma load_heap a n m :
  heap m !! a = Some n → load (on_heap a) m = Ok n m.
Proof. unfold load. by intros ->. Qed.

Lemma store_next_head this o q m :
  lists m !! this = Some o →
  store_next_node (head_of this) q m =
  Ok tt {| lists := <[this := {| head_ := {| value := value (head_ o);
                                             next_node := q |};
                                 size_ := size_ o |}]> (lists m);
           heap := heap m |}.
Proof. unfold store_next_node. by intros ->. Qed.

Lemma store_next_heap a n q m :
  heap m !! a = Some n →
  store_next_node (on_heap a) q m =
  Ok tt {| lists := lists m;
           heap := <[a := {| value := value n; next_node := q |}]>
                     (heap m) |}.
Proof. unfold store_next_node. by intros ->. Qed.

Lemma delete_Node_heap a n m :
  heap m !! a = Some n →
  delete_Node (on_heap a) m =
  Ok tt {| lists := lists m; heap := delete a (heap m) |}.
Proof. unfold delete_Node. by intros ->. Qed.

Lemma read_size_Ok this o m :
  lists m !! this = Some o → read_size_ this m = Ok (size_ o) m.
Proof. unfold read_size_. by intros ->. Qed.

Lemma write_size_Ok this o s m :
  lists m !! this = Some o →
  write_size_ this s m =
  Ok tt {| lists := <[this := {| head_ := head_ o; size_ := s |}]>
                      (lists m);
           heap := heap m |}.
Proof. unfold write_size_. by intros ->. Qed.

Lemma incr_size_Ok this o m :
  lists m !! this = Some o →
  incr_size_ this m =
  Ok tt {| lists := <[this := {| head_ := head_ o;
                                 size_ := size_t_incr (size_ o) |}]>
                      (lists m);
           heap := heap m |}.
Proof.
  intros Ho. unfold incr_size_.
  rewrite (bind_Ok _ _ _ _ _ (read_size_Ok _ _ _ Ho)).
  by apply write_size_Ok.
Qed.

Lemma decr_size_Ok this o m :
  lists m !! this = Some o →
  decr_size_ this m =
  Ok tt {| lists := <[this := {| head_ := head_ o;
                                 size_ := size_t_decr (size_ o) |}]>
                      (lists m);
           heap := heap m |}.
Proof.
  intros Ho. unfold decr_size_.
  rewrite (bind_Ok _ _ _ _ _ (read_size_Ok _ _ _ Ho)).
  by apply write_size_Ok.
Qed.

Lemma IsEmpty_Ok this o m :
  lists m !! this = Some o →
  IsEmpty this m = Ok (bool_decide (size_ o = 0%N)) m.
Proof.
  intros Ho. unfold IsEmpty.
  by rewrite (bind_Ok _ _ _ _ _ (read_size_Ok _ _ _ Ho)).
Qed.

Lemma assert_not_empty this o m :
  lists m !! this = Some o → size_ o ≠ 0%N →
  assert_ NDEBUG (let* e := IsEmpty this in ret (negb e)) m = Ok tt m.
Proof.
  intros Ho Hs. apply assert_holds.
  rewrite (bind_Ok _ _ _ _ _ (IsEmpty_Ok _ _ _ Ho)).
  unfold ret. by rewrite bool_decide_eq_false_2.
Qed.

Lemma PushFront_Ok this v o m :
  lists m !! this = Some o →
  PushFront this v m =
  Ok tt {| lists := <[this := {| head_ :=
                                   {| value := value (head_ o);
                                      next_node :=
                                        on_heap (fresh (dom (heap m))) |};
                                 size_ := size_t_incr (size_ o) |}]>
                      (lists m);
           heap := <[fresh (dom (heap m)) :=
                       {| value := v; next_node := next_node (head_ o) |}]>
                     (heap m) |}.
Proof.
  intros Ho. unfold PushFront.
  rewrite (bind_Ok _ _ _ _ _ (load_head _ _ _ Ho)).
  erewrite bind_Ok by reflexivity.
  erewrite bind_Ok by (by apply store_next_head).
  erewrite incr_size_Ok by apply lookup_insert_eq.
  simpl. by rewrite insert_insert_eq.
Qed.

(** [PopFront] on a list whose first node is [a]. *)
Lemma PopFront_Ok this o a n m :
  lists m !! this = Some o →
  size_ o ≠ 0%N →
  next_node (head_ o) = on_heap a →
  heap m !! a = Some n →
  PopFront NDEBUG this m =
  Ok tt {| lists := <[this := {| head_ := {| value := value (head_ o);
                                             next_node := next_node n |};
                                 size_ := size_t_decr (size_ o) |}]>
                      (lists m);
           heap := delete a (heap m) |}.
Proof.
  intros Ho Hs Hnx Ha. unfold PopFront.
  erewrite bind_Ok by (by eapply assert_not_empty).
  rewrite (bind_Ok _ _ _ _ _ (load_head _ _ _ Ho)). rewrite Hnx.
  rewrite (bind_Ok _ _ _ _ _ (load_heap _ _ _ Ha)).
  erewrite bind_Ok by (by apply store_next_head).
  erewrite bind_Ok by (by eapply delete_Node_heap).
  erewrite decr_size_Ok by apply lookup_insert_eq.
  simpl. by rewrite insert_insert_eq.
Qed.

Lemma PushFront_PopFront_memory this v m o :
  lists m !! this = Some o →
  (size_ o < SIZE_MAX)%N →
  (PushFront this v ;; PopFront NDEBUG this) m = Ok tt m.
Proof.
  intros Ho Hs.
  rewrite (bind_Ok _ _ _ _ _ (PushFront_Ok _ v _ _ Ho)).
  erewrite PopFront_Ok;
    [ | apply lookup_insert_eq | by apply size_t_incr_nonzero
      | reflexivity | apply lookup_insert_eq ].
  simpl. rewrite insert_insert_eq, size_t_decr_incr by done.
  rewrite delete_insert_eq, delete_id by apply fresh_heap_None.
  destruct m as [ls h], o as [[v0 nx] s]; simpl in *.
  by rewrite insert_id.
Qed.

(** ** Chains of nodes *)

Lemma seg_app h p cs1 cs2 q :
  seg h p (cs1 ++ cs2) q ↔ ∃ r, seg h p cs1 r ∧ seg h r cs2 q.
Proof.
  revert p. induction cs1 as [|c cs1 IH]; intros p; simpl.
  - split; [intros Hs; by exists p | by intros (r & -> & Hs)].
  - split.
    + intros (-> & n & Hn & Hv & Hs). apply IH in Hs as (r & Hs1 & Hs2).
      exists r. eauto 10.
    + intros (r & (-> & n & Hn & Hv & Hs1) & Hs2).
      split; [done|]. exists n. repeat split; [done..|].
      apply IH. eauto.
Qed.

Lemma seg_insert_ne h a n p cs q :
  a ∉ cs.*1 → seg h p cs q → seg (<[a := n]> h) p cs q.
Proof.
  revert p. induction cs as [|c cs IH]; intros p Ha; simpl; [done|].
  intros (-> & n' & Hn & Hv & Hs).
  rewrite fmap_cons, not_elem_of_cons in Ha. destruct Ha as [Hne Ha].
  split; [done|]. exists n'. rewrite lookup_insert_ne by done. auto.
Qed.

Lemma seg_delete_ne h a p cs q :
  a ∉ cs.*1 → seg h p cs q → seg (delete a h) p cs q.
Proof.
  revert p. induction cs as [|c cs IH]; intros p Ha; simpl; [done|].
  intros (-> & n' & Hn & Hv & Hs).
  rewrite fmap_cons, not_elem_of_cons in Ha. destruct Ha as [Hne Ha].
  split; [done|]. exists n'. rewrite lookup_delete_ne by done. auto.
Qed.

Lemma chain_det h p cs cs' : chain h p cs → chain h p cs' → cs = cs'.
Proof.
  unfold chain. revert p cs'.
  induction cs as [|[a v] cs IH]; intros p [|[a' v'] cs']; simpl.
  - done.
  - by intros -> (? & _).
  - by intros (-> & _) ?.
  - intros (-> & n & Hn & Hv & Hs) (Heq & n' & Hn' & Hv' & Hs').
    simplify_eq. f_equal. eauto.
Qed.

Lemma chain_dom h p cs a : chain h p cs → a ∈ cs.*1 → a ∈ dom h.
Proof.
  unfold chain. revert p. induction cs as [|c cs IH]; intros p; simpl.
  - intros _ Ha. by apply elem_of_nil in Ha.
  - intros (-> & n & Hn & Hv & Hs). rewrite elem_of_cons.
    intros [->|Ha]; [by apply elem_of_dom|eauto].
Qed.

(** A chain that ends in [nullptr] visits no node twice. *)
Lemma chain_NoDup h p cs : chain h p cs → NoDup cs.*1.
Proof.
  unfold chain. revert p.
  induction cs as [|[a v] cs IH]; intros p; simpl; [constructor|].
  intros (-> & n & Hn & Hv & Hs). constructor; [|by eapply IH].
  intros Ha. apply list_elem_of_fmap in Ha as ([a' v'] & Heq & Hin).
  simpl in Heq. subst a'.
  apply list_elem_of_split in Hin as (l1 & l2 & ->).
  pose proof Hs as Hs'. apply seg_app in Hs' as (r & _ & Hr).
  simpl in Hr. destruct Hr as (-> & n' & Hn' & _ & Hr).
  simplify_eq.
  pose proof (chain_det _ _ _ _ Hs Hr) as Heq.
  apply (f_equal length) in Heq. rewrite length_app in Heq.
  simpl in Heq. lia.
Qed.

Lemma chain_length_le h p cs : chain h p cs → length cs ≤ size h.
Proof.
  intros Hc. rewrite <-(length_fmap fst cs), <-size_dom.
  rewrite <-(size_list_to_set (C := gset positive) cs.*1)
    by by eapply chain_NoDup.
  apply subseteq_size. intros a Ha. apply elem_of_list_to_set in Ha.
  by eapply chain_dom.
Qed.

Lemma walk_chain fuel h p cs : walk fuel h p = Some cs → chain h p cs.
Proof.
  unfold chain. revert p cs. induction fuel as [|fuel IH]; [done|].
  intros [|l|a] cs; simpl; [by intros [= <-]|done|].
  destruct (h !! a) as [n|] eqn:Hn; [|done].
  destruct (walk fuel h (next_node n)) as [cs'|] eqn:Hw; [|done].
  intros [= <-]. simpl. split; [done|]. exists n. auto.
Qed.

Lemma chain_walk fuel h p cs :
  chain h p cs → length cs < fuel → walk fuel h p = Some cs.
Proof.
  unfold chain. revert p fuel.
  induction cs as [|[a v] cs IH]; intros p [|fuel]; simpl; try lia.
  - by intros ->.
  - intros (-> & n & Hn & Hv & Hs) Hlen. rewrite Hn.
    rewrite (IH _ fuel Hs) by lia. by rewrite Hv.
Qed.

Lemma cells_chain m this cs :
  cells m this = Some cs ↔
  ∃ o, lists m !! this = Some o ∧ chain (heap m) (next_node (head_ o)) cs.
Proof.
  unfold cells. split.
  - destruct (lists m !! this) as [o|]; [|done]. intros Hw.
    exists o. split; [done|]. by eapply walk_chain.
  - intros (o & -> & Hc). apply chain_walk; [done|].
    apply chain_length_le in Hc. lia.
Qed.

Lemma well_formed_chain m this :
  well_formed m this = true ↔
  ∃ o cs, lists m !! this = Some o ∧
          chain (heap m) (next_node (head_ o)) cs ∧
          size_ o = N.of_nat (length cs) ∧ (size_ o ≤ SIZE_MAX)%N.
Proof.
  unfold well_formed. split.
  - destruct (lists m !! this) as [o|] eqn:Ho; [|done].
    destruct (cells m this) as [cs|] eqn:Hcs; [|done].
    rewrite andb_true_iff, !bool_decide_eq_true. intros [Hs Hm].
    apply cells_chain in Hcs as (o' & Ho' & Hc). simplify_eq. eauto 10.
  - intros (o & cs & Ho & Hc & Hs & Hm).
    assert (cells m this = Some cs) as -> by (apply cells_chain; eauto).
    rewrite Ho, andb_true_iff, !bool_decide_eq_true. done.
Qed.

(** ** Clear *)

Lemma Clear_loop_empty fuel this o m :
  lists m !! this = Some o →
  next_node (head_ o) = nullptr →
  Clear_loop (S fuel) this m = Ok tt m.
Proof.
  intros Ho Hnx. simpl.
  rewrite (bind_Ok _ _ _ _ _ (load_head _ _ _ Ho)).
  by rewrite Hnx.
Qed.

(** The loop frees the nodes of the chain one by one and counts
    [size_] down once for each. *)
Lemma Clear_loop_chain cs : ∀ fuel this o m,
  lists m !! this = Some o →
  chain (heap m) (next_node (head_ o)) cs →
  (N.of_nat (length cs) ≤ size_ o ≤ SIZE_MAX)%N →
  length cs < fuel →
  Clear_loop fuel this m =
  Ok tt {| lists := <[this := {| head_ := {| value := value (head_ o);
                                             next_node := nullptr |};
                                 size_ := size_ o - N.of_nat (length cs) |}]>
                      (lists m);
           heap := foldl (λ h a, delete a h) (heap m) cs.*1 |}.
Proof.
  induction cs as [|[a v] cs IH]; intros [|fuel] this o m Ho Hc Hs Hlen;
    simpl in Hlen; try lia.
  - unfold chain in Hc. simpl in Hc.
    erewrite Clear_loop_empty by done.
    destruct m as [ls h], o as [[v0 nx] s]; simpl in *. subst nx.
    rewrite N.sub_0_r. by rewrite insert_id.
  - pose proof (chain_NoDup _ _ _ Hc) as Hnd.
    unfold chain in Hc. simpl in Hc.
    destruct Hc as (Hnx & n & Hn & Hv & Hc).
    rewrite fmap_cons in Hnd.
    apply list.NoDup_cons in Hnd as [Hfresh Hnd].
    simpl in Hs. cbn [Clear_loop].
    rewrite (bind_Ok _ _ _ _ _ (load_head _ _ _ Ho)). rewrite Hnx.
    rewrite bool_decide_eq_false_2 by done.
    rewrite (bind_Ok _ _ _ _ _ (load_heap _ _ _ Hn)).
    erewrite bind_Ok by (by apply store_next_head).
    erewrite bind_Ok by (by eapply delete_Node_heap).
    erewrite bind_Ok by (apply decr_size_Ok, lookup_insert_eq).
    simpl. rewrite insert_insert_eq.
    erewrite IH; [ | apply lookup_insert_eq | | | lia ]; simpl.
    + rewrite insert_insert_eq, size_t_decr_pos by lia.
      replace (size_ o - N.of_nat (S (length cs)))%N
        with (size_ o - 1 - N.of_nat (length cs))%N by lia.
      done.
    + by apply seg_delete_ne.
    + rewrite size_t_decr_pos by lia. lia.
Qed.

Lemma Clear_Ok this o cs m :
  lists m !! this = Some o →
  chain (heap m) (next_node (head_ o)) cs →
  (N.of_nat (length cs) ≤ size_ o ≤ SIZE_MAX)%N →
  Clear this m =
  Ok tt {| lists := <[this := {| head_ := {| value := value (head_ o);
                                             next_node := nullptr |};
                                 size_ := size_ o - N.of_nat (length cs) |}]>
                      (lists m);
           heap := foldl (λ h a, delete a h) (heap m) cs.*1 |}.
Proof.
  intros Ho Hc Hs. unfold Clear.
  erewrite bind_Ok by reflexivity.
  apply Clear_loop_chain; [done..|].
  apply chain_length_le in Hc. lia.
Qed.

Lemma Clear_empty this o m :
  lists m !! this = Some o →
  next_node (head_ o) = nullptr →
  Clear this m = Ok tt m.
Proof.
  intros Ho Hnx. unfold Clear. erewrite bind_Ok by reflexivity.
  by eapply Clear_loop_empty.
Qed.

Lemma cells_nullptr this o m :
  lists m !! this = Some o → next_node (head_ o) = nullptr →
  cells m this = Some [].
Proof. intros Ho Hnx. unfold cells. by rewrite Ho, Hnx. Qed.

(** ** Unlinking a node *)

Lemma chain_first_ptr h p cs : chain h p cs → p = first_ptr cs.
Proof. unfold chain. destruct cs; simpl; [done|]. by intros [-> _]. Qed.

Lemma chain_unlink_first h p d cs :
  chain h p (d :: cs) →
  ∃ nd, p = on_heap d.1 ∧ h !! d.1 = Some nd ∧ value nd = d.2 ∧
        next_node nd = first_ptr cs ∧
        chain (delete d.1 h) (next_node nd) cs.
Proof.
  intros Hc. pose proof (chain_NoDup _ _ _ Hc) as Hnd.
  rewrite fmap_cons in Hnd. apply list.NoDup_cons in Hnd as [Hd _].
  unfold chain in Hc. simpl in Hc. destruct Hc as (-> & nd & Hn & Hv & Hc).
  exists nd. repeat split; [done..| by eapply chain_first_ptr |].
  by apply seg_delete_ne.
Qed.

Lemma chain_unlink_after h p cs1 c d cs2 :
  chain h p (cs1 ++ c :: d :: cs2) →
  ∃ nc nd,
    h !! c.1 = Some nc ∧ value nc = c.2 ∧ next_node nc = on_heap d.1 ∧
    h !! d.1 = Some nd ∧ value nd = d.2 ∧ c.1 ≠ d.1 ∧
    next_node nd = first_ptr cs2 ∧
    chain (<[c.1 := {| value := value nc; next_node := next_node nd |}]>
             (delete d.1 h)) p (cs1 ++ c :: cs2).
Proof.
  intros Hc. pose proof (chain_NoDup _ _ _ Hc) as Hnd.
  rewrite fmap_app, !fmap_cons in Hnd.
  apply list.NoDup_app in Hnd as (_ & Hdisj & Hnd).
  apply list.NoDup_cons in Hnd as [Hc2 Hnd].
  apply list.NoDup_cons in Hnd as [Hd2 _].
  rewrite not_elem_of_cons in Hc2. destruct Hc2 as [Hcd Hc2].
  assert (c.1 ∉ cs1.*1) as Hc1.
  { intros Hin. apply (Hdisj _ Hin). left. }
  assert (d.1 ∉ cs1.*1) as Hd1.
  { intros Hin. apply (Hdisj _ Hin). right. left. }
  unfold chain in Hc. apply seg_app in Hc as (r & Hs1 & Hs2).
  simpl in Hs2.
  destruct Hs2 as (-> & nc & Hnc & Hvc & Hnx & nd & Hn & Hvd & Hs2).
  exists nc, nd. repeat split; [done..| by eapply chain_first_ptr |].
  unfold chain. apply seg_app. exists (on_heap c.1). split.
  - by apply seg_insert_ne, seg_delete_ne.
  - simpl. split; [done|]. eexists. rewrite lookup_insert_eq.
    repeat split; [done|]. simpl.
    by apply seg_insert_ne, seg_delete_ne.
Qed.

(** ** EraseAfter *)

(** [EraseAfter(before_begin())] leaves the memory that [PopFront] does
    (see [PopFront_Ok]). *)
Lemma EraseAfter_head_Ok this o a n m :
  lists m !! this = Some o →
  size_ o ≠ 0%N →
  next_node (head_ o) = on_heap a →
  heap m !! a = Some n →
  EraseAfter NDEBUG this (before_begin this) m =
  Ok {| node_ := next_node n |}
     {| lists := <[this := {| head_ := {| value := value (head_ o);
                                          next_node := next_node n |};
                              size_ := size_t_decr (size_ o) |}]>
                   (lists m);
        heap := delete a (heap m) |}.
Proof.
  intros Ho Hs Hnx Ha. unfold EraseAfter.
  erewrite bind_Ok by (by eapply assert_not_empty).
  erewrite bind_Ok by (by apply assert_holds).
  simpl node_.
  rewrite (bind_Ok _ _ _ _ _ (load_head _ _ _ Ho)). rewrite Hnx.
  rewrite (bind_Ok _ _ _ _ _ (load_heap _ _ _ Ha)).
  erewrite bind_Ok by (by eapply delete_Node_heap).
  erewrite bind_Ok by (by apply store_next_head).
  erewrite bind_Ok by (apply decr_size_Ok, lookup_insert_eq).
  erewrite bind_Ok by (apply load_head, lookup_insert_eq).
  simpl. by rewrite insert_insert_eq.
Qed.

Lemma EraseAfter_heap_Ok this o a na b nb m :
  lists m !! this = Some o →
  size_ o ≠ 0%N →
  heap m !! a = Some na →
  next_node na = on_heap b →
  heap m !! b = Some nb →
  a ≠ b →
  EraseAfter NDEBUG this {| node_ := on_heap a |} m =
  Ok {| node_ := next_node nb |}
     {| lists := <[this := {| head_ := head_ o;
                              size_ := size_t_decr (size_ o) |}]>
                   (lists m);
        heap := <[a := {| value := value na; next_node := next_node nb |}]>
                  (delete b (heap m)) |}.
Proof.
  intros Ho Hs Ha Hnx Hb Hab. unfold EraseAfter.
  erewrite bind_Ok by (by eapply assert_not_empty).
  erewrite bind_Ok by (by apply assert_holds).
  simpl node_.
  rewrite (bind_Ok _ _ _ _ _ (load_heap _ _ _ Ha)). rewrite Hnx.
  rewrite (bind_Ok _ _ _ _ _ (load_heap _ _ _ Hb)).
  erewrite bind_Ok by (by eapply delete_Node_heap).
  erewrite bind_Ok
    by (apply store_next_heap; simpl; by rewrite lookup_delete_ne).
  erewrite bind_Ok by (by apply decr_size_Ok).
  erewrite bind_Ok by (apply load_heap, lookup_insert_eq).
  done.
Qed.

Lemma position_Some m this pos k cs :
  cells m this = Some cs →
  position m this pos = Some k →
  (pos = before_begin this ∧ k = 0) ∨
  (∃ i c, k = S i ∧ pos = {| node_ := on_heap c.1 |} ∧ cs !! i = Some c).
Proof.
  intros Hcs. unfold position. destruct pos as [[|l|a]]; simpl; [done|..].
  - case_bool_decide; [|done]. intros [= <-]. left. by subst.
  - rewrite Hcs.
    destruct (list_find _ cs) as [[i c]|] eqn:Hf; [|done].
    intros [= <-]. apply list_find_Some in Hf as (Hi & <- & _).
    right. eauto.
Qed.

(** C7.  On a well-formed list whose cells are [cs], let [pos] be the
    iterator at place [k] (0 for [before_begin()], [S i] for the node of
    index [i]) and let the node after it exist ([k < length cs]).  Then
    [EraseAfter(pos)] returns; the cell [c] of index [k], the one after
    [pos], is the only one removed ([delete k cs] remains, in order) and
    its node is freed; [GetSize()] goes from [s] to [s - 1]; the node of
    [pos] is linked to the removed node's successor, and the returned
    iterator refers to that successor, the node now following [pos]
    ([end()] when there is none); the list is well formed again. *)
Theorem EraseAfter_removes_successor this pos m cs k :
  well_formed m this = true →
  cells m this = Some cs →
  position m this pos = Some k →
  k < length cs →
  ∃ it m' c s n,
    EraseAfter NDEBUG this pos m = Ok it m' ∧
    cs !! k = Some c ∧
    cells m' this = Some (delete k cs) ∧
    heap m' !! c.1 = None ∧
    GetSize this m = Ok s m ∧ (0 < s)%N ∧
    GetSize this m' = Ok (s - 1)%N m' ∧
    load (node_ pos) m' = Ok n m' ∧
    next_node n = node_ it ∧
    node_ it = first_ptr (drop (S k) cs) ∧
    well_formed m' this = true.
Proof.
  intros Hwf Hcs Hpos Hk.
  apply well_formed_chain in Hwf as (o & cs' & Ho & Hc & Hs & Hmax).
  assert (cs' = cs) as ->.
  { apply cells_chain in Hcs as (o' & Ho' & Hc'). simplify_eq.
    by eapply chain_det. }
  assert (GetSize this m = Ok (size_ o) m) as Hsz.
  { by apply read_size_Ok. }
  destruct (position_Some _ _ _ _ _ Hcs Hpos)
    as [[-> ->]|(i & c & -> & -> & Hi)].
  - destruct cs as [|d cs]; simpl in Hk; [lia|].
    destruct (chain_unlink_first _ _ _ _ Hc)
      as (nd & Hnx & Hd & Hvd & Hnd & Hc').
    cbn [length] in Hs.
    assert (size_t_decr (size_ o) = N.of_nat (length cs)) as Hdecr.
    { rewrite size_t_decr_pos; lia. }
    eexists _, _, d, (size_ o),
      {| value := value (head_ o); next_node := next_node nd |}.
    erewrite EraseAfter_head_Ok; [ | done | lia | done..].
    split_and!.
    + done.
    + done.
    + apply cells_chain. eexists. simpl. rewrite lookup_insert_eq.
      split; [done|]. done.
    + apply lookup_delete_eq.
    + done.
    + lia.
    + unfold GetSize. erewrite read_size_Ok by apply lookup_insert_eq.
      cbn [size_]. f_equal. rewrite Hdecr. lia.
    + unfold before_begin. cbn [node_].
      erewrite load_head by apply lookup_insert_eq. done.
    + done.
    + done.
    + apply well_formed_chain. eexists _, cs. simpl.
      rewrite lookup_insert_eq. split_and!; simpl; [done..|].
      rewrite Hdecr. cbn [size_]. lia.
  - destruct (lookup_lt_is_Some_2 cs (S i)) as [d Hd]; [done|].
    assert (cs = take i cs ++ c :: d :: drop (S (S i)) cs) as Hsplit.
    { rewrite <-(take_drop_middle cs i c) at 1 by done.
      by rewrite (drop_S cs d (S i)). }
    rewrite Hsplit in Hc.
    destruct (chain_unlink_after _ _ _ _ _ _ Hc)
      as (nc & nd & Hnc & Hvc & Hnx & Hnd & Hvd & Hne & Hfst & Hc').
    assert (delete (S i) cs = take i cs ++ c :: drop (S (S i)) cs) as Hdel.
    { rewrite delete_take_drop, (take_S_r cs i c) by done.
      by rewrite <-app_assoc. }
    assert (size_ o ≠ 0%N) as Hnz by lia.
    assert (size_t_decr (size_ o) = N.of_nat (length (delete (S i) cs)))
      as Hdecr.
    { rewrite size_t_decr_pos, length_delete by (done || lia). lia. }
    eexists _, _, d, (size_ o),
      {| value := value nc; next_node := next_node nd |}.
    erewrite EraseAfter_heap_Ok by done.
    split_and!.
    + done.
    + done.
    + apply cells_chain. eexists. simpl. rewrite lookup_insert_eq.
      split; [done|]. simpl. by rewrite Hdel.
    + simpl. rewrite lookup_insert_ne, lookup_delete_eq by done. done.
    + done.
    + lia.
    + unfold GetSize. erewrite read_size_Ok by apply lookup_insert_eq.
      cbn [size_]. f_equal. rewrite size_t_decr_pos; lia.
    + cbn [node_]. erewrite load_heap by apply lookup_insert_eq. done.
    + done.
    + done.
    + apply well_formed_chain. eexists _, (delete (S i) cs). simpl.
      rewrite lookup_insert_eq. split_and!; simpl.
      * done.
      * by rewrite Hdel.
      * done.
      * rewrite Hdecr, length_delete by done. cbn [size_]. lia.
Qed.

(** ** InsertAfter *)

Lemma InsertAfter_head_Ok this o v m :
  lists m !! this = Some o →
  InsertAfter NDEBUG this (before_begin this) v m =
  Ok {| node_ := on_heap (fresh (dom (heap m))) |}
     {| lists := <[this := {| head_ :=
                                {| value := value (head_ o);
                                   next_node :=
                                     on_heap (fresh (dom (heap m))) |};
                              size_ := size_t_incr (size_ o) |}]>
                   (lists m);
        heap := <[fresh (dom (heap m)) :=
                    {| value := v; next_node := nullptr |}]> (heap m) |}.
Proof.
  intros Ho. unfold InsertAfter.
  erewrite bind_Ok by (by apply assert_holds).
  erewrite bind_Ok by reflexivity.
  unfold before_begin. cbn [node_].
  erewrite bind_Ok by (by apply store_next_head).
  erewrite bind_Ok by (apply incr_size_Ok, lookup_insert_eq).
  erewrite bind_Ok by (apply load_head, lookup_insert_eq).
  simpl. by rewrite insert_insert_eq.
Qed.

Lemma InsertAfter_heap_Ok this o a n v m :
  lists m !! this = Some o →
  heap m !! a = Some n →
  InsertAfter NDEBUG this {| node_ := on_heap a |} v m =
  Ok {| node_ := on_heap (fresh (dom (heap m))) |}
     {| lists := <[this := {| head_ := head_ o;
                              size_ := size_t_incr (size_ o) |}]>
                   (lists m);
        heap := <[a := {| value := value n;
                          next_node := on_heap (fresh (dom (heap m))) |}]>
                  (<[fresh (dom (heap m)) :=
                       {| value := v; next_node := nullptr |}]> (heap m)) |}.
Proof.
  intros Ho Ha. unfold InsertAfter.
  erewrite bind_Ok by (by apply assert_holds).
  erewrite bind_Ok by reflexivity.
  assert (a ≠ fresh (dom (heap m))) as Hne.
  { intros ->. by rewrite fresh_heap_None in Ha. }
  cbn [node_].
  erewrite bind_Ok
    by (apply store_next_heap; simpl; by rewrite lookup_insert_ne).
  erewrite bind_Ok by (by apply incr_size_Ok).
  erewrite bind_Ok by (apply load_heap, lookup_insert_eq).
  done.
Qed.

(** What [InsertAfter] does on a well-formed list with cells [cs], at
    the iterator of place [k]: the cells up to [pos] are kept, the new
    cell follows, and the cells that came after [pos] are no longer part
    of the list; [size_] is incremented all the same. *)
Lemma InsertAfter_outcome this pos v m cs k :
  well_formed m this = true →
  cells m this = Some cs →
  position m this pos = Some k →
  ∃ a m',
    InsertAfter NDEBUG this pos v m = Ok {| node_ := on_heap a |} m' ∧
    heap m !! a = None ∧
    cells m' this = Some (take k cs ++ [(a, v)]) ∧
    GetSize this m' = Ok (size_t_incr (N.of_nat (length cs))) m'.
Proof.
  intros Hwf Hcs Hpos.
  apply well_formed_chain in Hwf as (o & cs' & Ho & Hc & Hs & Hmax).
  assert (cs' = cs) as ->.
  { apply cells_chain in Hcs as (o' & Ho' & Hc'). simplify_eq.
    by eapply chain_det. }
  pose proof (fresh_heap_None (heap m)) as Hfresh.
  assert (∀ cs0, cs0.*1 ⊆ cs.*1 → fresh (dom (heap m)) ∉ cs0.*1) as Hnew.
  { intros cs0 Hsub Hin. apply Hsub in Hin.
    apply (chain_dom _ _ _ _ Hc), elem_of_dom in Hin as [? Hin].
    by rewrite Hfresh in Hin. }
  exists (fresh (dom (heap m))).
  destruct (position_Some _ _ _ _ _ Hcs Hpos)
    as [[-> ->]|(i & c & -> & -> & Hi)].
  - eexists. erewrite InsertAfter_head_Ok by done.
    split_and!; [done|done| |].
    + apply cells_chain. eexists. simpl. rewrite lookup_insert_eq.
      split; [done|]. unfold chain. simpl. split; [done|].
      eexists. by rewrite lookup_insert_eq.
    + unfold GetSize. erewrite read_size_Ok by apply lookup_insert_eq.
      cbn [size_]. by rewrite Hs.
  - assert (cs = take i cs ++ c :: drop (S i) cs) as Hsplit
      by (by rewrite take_drop_middle).
    pose proof (chain_NoDup _ _ _ Hc) as Hnd.
    rewrite Hsplit, fmap_app, fmap_cons in Hnd.
    apply list.NoDup_app in Hnd as (_ & Hdisj & _).
    assert (c.1 ∉ (take i cs).*1) as Hc1.
    { intros Hin. apply (Hdisj _ Hin). left. }
    pose proof Hc as Hc'. rewrite Hsplit in Hc'. unfold chain in Hc'.
    apply seg_app in Hc' as (r & Hs1 & Hs2). simpl in Hs2.
    destruct Hs2 as (-> & nc & Hnc & Hvc & _).
    eexists. erewrite InsertAfter_heap_Ok by done.
    assert (c.1 ≠ fresh (dom (heap m))) as Hne.
    { intros Heq. rewrite Heq in Hnc. by rewrite Hfresh in Hnc. }
    split_and!; [done|done| |].
    + apply cells_chain. eexists. simpl. rewrite lookup_insert_eq.
      split; [done|]. cbn [head_].
      rewrite (take_S_r cs i c), <-app_assoc by done.
      unfold chain. apply seg_app. exists (on_heap c.1). split.
      * apply seg_insert_ne; [done|]. apply seg_insert_ne; [|done].
        apply Hnew. rewrite (fmap_take fst). apply subseteq_take.
      * simpl. split; [done|]. eexists. rewrite lookup_insert_eq.
        split_and!; [done..|]. simpl. eexists.
        rewrite lookup_insert_ne, lookup_insert_eq by done. done.
    + unfold GetSize. erewrite read_size_Ok by apply lookup_insert_eq.
      cbn [size_]. by rewrite Hs.
Qed.

(** On a list without nodes the two insertions at the front leave the
    same memory. *)
Lemma InsertAfter_before_begin_empty this o v m :
  lists m !! this = Some o →
  next_node (head_ o) = nullptr →
  ∃ it m',
    InsertAfter NDEBUG this (before_begin this) v m = Ok it m' ∧
    PushFront this v m = Ok tt m'.
Proof.
  intros Ho Hnx. eexists _, _.
  erewrite InsertAfter_head_Ok, PushFront_Ok by done.
  by rewrite Hnx.
Qed.

(** ** PushFront *)

Lemma PushFront_outcome this v m cs :
  well_formed m this = true →
  cells m this = Some cs →
  (N.of_nat (length cs) < SIZE_MAX)%N →
  ∃ a m',
    PushFront this v m = Ok tt m' ∧
    heap m !! a = None ∧
    cells m' this = Some ((a, v) :: cs) ∧
    GetSize this m' = Ok (N.of_nat (S (length cs))) m' ∧
    well_formed m' this = true.
Proof.
  intros Hwf Hcs Hlt.
  apply well_formed_chain in Hwf as (o & cs' & Ho & Hc & Hs & Hmax).
  assert (cs' = cs) as ->.
  { apply cells_chain in Hcs as (o' & Ho' & Hc'). simplify_eq.
    by eapply chain_det. }
  pose proof (fresh_heap_None (heap m)) as Hfresh.
  assert (size_t_incr (size_ o) = N.of_nat (S (length cs))) as Hincr.
  { unfold size_t_incr. rewrite N.mod_small; unfold SIZE_MAX in *; lia. }
  assert (chain (<[fresh (dom (heap m)) :=
                     {| value := v; next_node := next_node (head_ o) |}]>
                   (heap m))
                (on_heap (fresh (dom (heap m))))
                ((fresh (dom (heap m)), v) :: cs)) as Hc'.
  { unfold chain. simpl. split; [done|]. eexists.
    rewrite lookup_insert_eq. split_and!; [done..|]. simpl.
    apply seg_insert_ne; [|done]. intros Hin.
    apply (chain_dom _ _ _ _ Hc), elem_of_dom in Hin as [? Hin].
    by rewrite Hfresh in Hin. }
  eexists _, _. erewrite PushFront_Ok by done.
  split_and!; [done|done|..].
  - apply cells_chain. eexists. simpl. rewrite lookup_insert_eq. done.
  - unfold GetSize. erewrite read_size_Ok by apply lookup_insert_eq.
    cbn [size_]. by rewrite Hincr.
  - apply well_formed_chain. eexists _, _. simpl.
    rewrite lookup_insert_eq. split_and!; [done|done|..]; cbn [size_].
    + by rewrite Hincr.
    + rewrite Hincr. lia.
Qed.

(** ** Clear always returns or faults: its loop frees a node at every
    turn, so the bound on the turns is never what stops it. *)

Lemma decr_size_heap this m :
  match decr_size_ this m with
  | Ok _ m' => heap m' = heap m
  | OutOfFuel => False
  | _ => True
  end.
Proof.
  unfold decr_size_, bind, read_size_, write_size_.
  destruct (lists m !! this) eqn:Ho; simpl; [by rewrite Ho|done].
Qed.

Lemma Clear_loop_fuel fuel this m :
  size (heap m) < fuel → Clear_loop fuel this m ≠ OutOfFuel.
Proof.
  revert m. induction fuel as [|fuel IH]; intros m Hlt; [lia|].
  cbn [Clear_loop]. unfold bind at 1.
  destruct (load (head_of this) m) as [hd m1| | |] eqn:Hload; try done.
  - assert (m1 = m) as ->.
    { unfold load in Hload. destruct (lists m !! this); by simplify_eq. }
    case_bool_decide; [done|].
    unfold bind at 1.
    destruct (load (next_node hd) m) as [t m2| | |] eqn:Hload2; try done.
    + assert (m2 = m) as ->.
      { unfold load in Hload2.
        destruct (next_node hd) as [|l|a]; [done|..].
        - destruct (lists m !! l); by simplify_eq.
        - destruct (heap m !! a); by simplify_eq. }
      unfold bind at 1.
      destruct (store_next_node (head_of this) (next_node t) m)
        as [[] m3| | |] eqn:Hstore; try done.
      * assert (heap m3 = heap m) as Hh3.
        { unfold store_next_node in Hstore.
          destruct (lists m !! this); by simplify_eq. }
        unfold bind at 1.
        destruct (delete_Node (next_node hd) m3)
          as [[] m4| | |] eqn:Hdel; try done.
        -- assert (size (heap m4) < size (heap m)) as Hsz.
           { unfold delete_Node in Hdel.
             destruct (next_node hd) as [|l|a]; [done|done|].
             destruct (heap m3 !! a) as [x|] eqn:Ha; [|done].
             simplify_eq. simpl. rewrite <-Hh3.
             rewrite (map_size_delete_Some a (heap m3)) by eauto.
             assert (size (heap m3) ≠ 0); [|lia].
             intros Hz%map_size_empty_iff. by rewrite Hz in Ha. }
           unfold bind at 1. pose proof (decr_size_heap this m4) as Hdecr.
           destruct (decr_size_ this m4) as [[] m5| | |]; try done.
           apply IH. rewrite Hdecr. lia.
        -- unfold delete_Node in Hdel.
           destruct (next_node hd) as [|l|a]; [done|done|].
           by destruct (heap m3 !! a).
      * unfold store_next_node in Hstore.
        by destruct (lists m !! this).
    + unfold load in Hload2. destruct (next_node hd) as [|l|a]; [done|..].
      * by destruct (lists m !! l).
      * by destruct (heap m !! a).
  - unfold load in Hload. by destruct (lists m !! this).
Qed.

Lemma Clear_total this m : Clear this m ≠ OutOfFuel.
Proof.
  unfold Clear. erewrite bind_Ok by reflexivity.
  apply Clear_loop_fuel. lia.
Qed.

(** ** Construction from an initializer list *)

(** Linking a new node [a] behind the last link of a list. *)
Lemma append_node tmp o cs a v m :
  lists m !! tmp = Some o →
  chain (heap m) (next_node (head_ o)) cs →
  heap m !! a = None →
  ∃ n m2 o2 n2,
    load (last_ptr tmp cs) m = Ok n m ∧ next_node n = nullptr ∧
    store_next_node (last_ptr tmp cs) (on_heap a)
      {| lists := lists m;
         heap := <[a := {| value := v; next_node := nullptr |}]> (heap m) |}
    = Ok tt m2 ∧
    lists m2 = <[tmp := o2]> (lists m) ∧
    size_ o2 = size_ o ∧
    chain (heap m2) (next_node (head_ o2)) (cs ++ [(a, v)]) ∧
    (∀ s, load (last_ptr tmp cs)
            {| lists := <[tmp := {| head_ := head_ o2; size_ := s |}]>
                          (lists m2);
               heap := heap m2 |}
          = Ok n2 {| lists := <[tmp := {| head_ := head_ o2; size_ := s |}]>
                                (lists m2);
                     heap := heap m2 |}) ∧
    next_node n2 = on_heap a.
Proof.
  intros Ho Hc Ha.
  destruct cs as [|c cs _] using rev_ind.
  - unfold chain in Hc. simpl in Hc.
    change (last_ptr tmp []) with (head_of tmp).
    eexists (head_ o), _,
      {| head_ := {| value := value (head_ o); next_node := on_heap a |};
         size_ := size_ o |},
      {| value := value (head_ o); next_node := on_heap a |}.
    split_and!.
    + by apply load_head.
    + done.
    + by apply store_next_head.
    + done.
    + done.
    + unfold chain. simpl. split; [done|]. eexists.
      by rewrite lookup_insert_eq.
    + intros s. by erewrite load_head by apply lookup_insert_eq.
    + done.
  - pose proof (chain_NoDup _ _ _ Hc) as Hnd.
    rewrite fmap_app in Hnd. apply list.NoDup_app in Hnd as (_ & Hdisj & _).
    assert (c.1 ∉ cs.*1) as Hc1.
    { intros Hin. apply (Hdisj _ Hin). simpl. left. }
    assert (a ∉ cs.*1) as Ha1.
    { intros Hin.
      assert (a ∈ (cs ++ [c]).*1) as Hin'
        by (rewrite fmap_app; apply elem_of_app; by left).
      apply (chain_dom _ _ _ _ Hc), elem_of_dom in Hin' as [? Hin'].
      by rewrite Ha in Hin'. }
    unfold chain in Hc. apply seg_app in Hc as (r & Hs1 & Hs2).
    simpl in Hs2. destruct Hs2 as (-> & nc & Hnc & Hvc & Hnx).
    assert (c.1 ≠ a) as Hne.
    { intros Heq. rewrite Heq in Hnc. by rewrite Ha in Hnc. }
    unfold last_ptr. rewrite last_snoc.
    eexists nc, _, o, _. split_and!.
    + by apply load_heap.
    + done.
    + apply store_next_heap. simpl. by rewrite lookup_insert_ne.
    + simpl. by rewrite insert_id.
    + done.
    + simpl. unfold chain. rewrite <-app_assoc. apply seg_app.
      exists (on_heap c.1). split.
      * by apply seg_insert_ne, seg_insert_ne.
      * simpl. split; [done|]. eexists. rewrite lookup_insert_eq.
        split_and!; [done..|]. simpl. eexists.
        rewrite lookup_insert_ne, lookup_insert_eq by done. done.
    + intros s. apply load_heap. simpl. apply lookup_insert_eq.
    + done.
Qed.

(** The loop of [AddToHead] over the array of an initializer list:
    entered at index [j] with the first [j] values already in the chain
    of [tmp], it leaves all the values there, in order. *)
Lemma AddToHead_loop_array (vs : list Type_) : ∀ fuel j tmp m o cs,
  lists m !! tmp = Some o →
  chain (heap m) (next_node (head_ o)) cs →
  cs.*2 = take j vs →
  j ≤ length vs →
  size_ o = N.of_nat j →
  (N.of_nat (length vs) ≤ SIZE_MAX)%N →
  length vs - j < fuel →
  ∃ m' o' cs',
    AddToHead_loop NDEBUG fuel tmp (last_ptr tmp cs)
      {| array := vs; index := j |} (initializer_list_end vs) m = Ok tt m' ∧
    lists m' = <[tmp := o']> (lists m) ∧
    chain (heap m') (next_node (head_ o')) cs' ∧
    cs'.*2 = vs ∧
    size_ o' = N.of_nat (length vs).
Proof.
  induction fuel as [|fuel IH]; intros j tmp m o cs Ho Hc Hvs Hj Hs Hmax Hf;
    [lia|].
  cbn [AddToHead_loop input_ne ArrayPtr_input index initializer_list_end].
  destruct (decide (j = length vs)) as [->|Hne].
  - rewrite bool_decide_eq_true_2 by done. cbn [negb].
    exists m, o, cs. split_and!; [done| |done| |done].
    + by rewrite insert_id.
    + by rewrite Hvs, firstn_all.
  - rewrite bool_decide_eq_false_2 by done. cbn [negb].
    destruct (lookup_lt_is_Some_2 vs j) as [v Hv]; [lia|].
    destruct (append_node tmp o cs (fresh (dom (heap m))) v m Ho Hc
                (fresh_heap_None _))
      as (n & m2 & o2 & n2 & Hload & Hnull & Hstore & Hl2 & Hs2 & Hc2
          & Hload2 & Hnx2).
    erewrite bind_Ok.
    2:{ apply assert_holds. rewrite (bind_Ok _ _ _ _ _ Hload).
        unfold ret. by rewrite bool_decide_eq_true_2. }
    cbn [input_deref ArrayPtr_input array index]. rewrite Hv.
    erewrite bind_Ok by reflexivity.
    erewrite bind_Ok by reflexivity.
    rewrite (bind_Ok _ _ _ _ _ Hstore).
    assert (lists m2 !! tmp = Some o2) as Ho2
      by (rewrite Hl2; apply lookup_insert_eq).
    rewrite (bind_Ok _ _ _ _ _ (incr_size_Ok _ _ _ Ho2)).
    rewrite (bind_Ok _ _ _ _ _ (Hload2 _)). rewrite Hnx2.
    cbn [input_incr ArrayPtr_input array index].
    erewrite bind_Ok by reflexivity.
    assert (last_ptr tmp (cs ++ [(fresh (dom (heap m)), v)])
            = on_heap (fresh (dom (heap m)))) as <-.
    { unfold last_ptr. by rewrite last_snoc. }
    assert (length cs = j) as Hlen.
    { rewrite <-(length_fmap snd cs), Hvs, length_take. lia. }
    destruct (IH (S j) tmp
                {| lists := <[tmp := {| head_ := head_ o2;
                                        size_ := size_t_incr (size_ o2) |}]>
                              (lists m2);
                   heap := heap m2 |}
                {| head_ := head_ o2; size_ := size_t_incr (size_ o2) |}
                (cs ++ [(fresh (dom (heap m)), v)]))
      as (m' & o' & cs' & Hrun & Hl' & Hc' & Hvs' & Hs');
      [apply lookup_insert_eq| | | | |done| |].
    + exact Hc2.
    + rewrite fmap_app, Hvs. simpl. by rewrite (take_S_r vs j v).
    + lia.
    + cbn [size_]. rewrite Hs2, Hs. unfold size_t_incr.
      rewrite N.mod_small; unfold SIZE_MAX in *; lia.
    + lia.
    + exists m', o', cs'. split_and!; [exact Hrun| |done..].
      rewrite Hl'. simpl. rewrite Hl2. by rewrite !insert_insert_eq.
Qed.

(** [swap] of two distinct list objects exchanges the first links and
    the sizes and touches nothing else. *)
Lemma swap_Ok this other o1 o2 m :
  this ≠ other →
  lists m !! this = Some o1 →
  lists m !! other = Some o2 →
  ∃ m',
    swap this other m = Ok tt m' ∧
    heap m' = heap m ∧
    lists m' !! this =
      Some {| head_ := {| value := value (head_ o1);
                          next_node := next_node (head_ o2) |};
              size_ := size_ o2 |} ∧
    lists m' !! other =
      Some {| head_ := {| value := value (head_ o2);
                          next_node := next_node (head_ o1) |};
              size_ := size_ o1 |} ∧
    (∀ l, l ≠ this → l ≠ other → lists m' !! l = lists m !! l).
Proof.
  intros Hne H1 H2. eexists. unfold swap.
  rewrite (bind_Ok _ _ _ _ _ (load_head _ _ _ H1)).
  rewrite (bind_Ok _ _ _ _ _ (load_head _ _ _ H2)).
  erewrite bind_Ok by (by apply store_next_head).
  erewrite bind_Ok
    by (apply store_next_head; simpl; by rewrite lookup_insert_ne).
  erewrite bind_Ok
    by (apply read_size_Ok; simpl;
        rewrite lookup_insert_ne by done; apply lookup_insert_eq).
  erewrite bind_Ok by (apply read_size_Ok; simpl; apply lookup_insert_eq).
  erewrite bind_Ok
    by (apply write_size_Ok; simpl;
        rewrite lookup_insert_ne by done; apply lookup_insert_eq).
  erewrite write_size_Ok
    by (simpl; rewrite lookup_insert_ne by done; apply lookup_insert_eq).
  split_and!; [done|done|..]; simpl.
  - rewrite lookup_insert_ne, lookup_insert_eq by done. done.
  - by rewrite lookup_insert_eq.
  - intros l Hl1 Hl2. by rewrite !lookup_insert_ne.
Qed.

(** [AddToHead] over an initializer list, on a list object that has no
    node yet: afterwards it holds the values, in order, and [size_] is
    their number, whatever it was before. *)
Lemma AddToHead_array_outcome this o0 (vs : list Type_) m :
  lists m !! this = Some o0 →
  next_node (head_ o0) = nullptr →
  (N.of_nat (length vs) ≤ SIZE_MAX)%N →
  ∃ m' cs,
    AddToHead NDEBUG this (initializer_list_begin vs)
      (initializer_list_end vs) m = Ok tt m' ∧
    cells m' this = Some cs ∧
    cs.*2 = vs ∧
    GetSize this m' = Ok (N.of_nat (length vs)) m' ∧
    (∀ l, l ≠ this → lists m' !! l = lists m !! l).
Proof.
  intros Hthis Hnull Hmax. unfold AddToHead.
  erewrite bind_Ok by reflexivity.
  set (tmp := fresh (dom (lists m))).
  assert (lists m !! tmp = None) as Htmp
    by apply not_elem_of_dom, is_fresh.
  assert (this ≠ tmp) as Hne.
  { intros Heq. rewrite <-Heq in Htmp. by rewrite Hthis in Htmp. }
  set (t0 := {| head_ := Node_default; size_ := 0%N |}).
  set (m1 := {| lists := <[tmp := t0]> (lists m); heap := heap m |}).
  erewrite bind_Ok by reflexivity.
  cbn [initializer_list_begin initializer_list_end index].
  destruct (AddToHead_loop_array vs (S (length vs - 0)) 0 tmp m1 t0 [])
    as (m2 & o2 & cs & Hrun & Hl2 & Hc2 & Hvs & Hs2);
    [apply lookup_insert_eq|done|done|lia|done|done|lia|].
  change (last_ptr tmp []) with (head_of tmp) in Hrun.
  unfold initializer_list_end in Hrun.
  rewrite (bind_Ok _ _ _ _ _ Hrun).
  assert (lists m2 !! this = Some o0) as H2this.
  { rewrite Hl2, lookup_insert_ne by done. simpl.
    by rewrite lookup_insert_ne. }
  assert (lists m2 !! tmp = Some o2) as H2tmp
    by (rewrite Hl2; apply lookup_insert_eq).
  destruct (swap_Ok this tmp o0 o2 m2 Hne H2this H2tmp)
    as (m3 & Hswap & Hh3 & H3this & H3tmp & H3other).
  rewrite (bind_Ok _ _ _ _ _ Hswap).
  unfold SingleLinkedList_destroy.
  erewrite bind_Ok by (by eapply Clear_empty).
  unfold delete_object. rewrite H3tmp.
  eexists _, cs. split; [reflexivity|].
  split_and!.
  - apply cells_chain. eexists. simpl.
    rewrite lookup_delete_ne by done. split; [done|].
    simpl. by rewrite Hh3.
  - done.
  - unfold GetSize. erewrite read_size_Ok
      by (simpl; by rewrite lookup_delete_ne).
    simpl. by rewrite Hs2.
  - intros l Hl. simpl.
    destruct (decide (l = tmp)) as [->|Hlt].
    + by rewrite lookup_delete_eq.
    + rewrite lookup_delete_ne, H3other, Hl2 by done.
      rewrite lookup_insert_ne by done. simpl.
      by rewrite lookup_insert_ne.
Qed.

(** [SingleLinkedList(std::initializer_list<Type>)] returns a new,
    well-formed list object that holds the values in their order,
    whatever [size_] happened to hold. *)
Lemma SingleLinkedList_init_outcome garbage (vs : list Type_) m :
  (N.of_nat (length vs) ≤ SIZE_MAX)%N →
  ∃ this m',
    SingleLinkedList_init NDEBUG garbage vs m = Ok this m' ∧
    lists m !! this = None ∧
    elements m' this = Some vs ∧
    GetSize this m' = Ok (N.of_nat (length vs)) m' ∧
    well_formed m' this = true ∧
    (∀ l, l ≠ this → lists m' !! l = lists m !! l).
Proof.
  intros Hmax. unfold SingleLinkedList_init.
  erewrite bind_Ok by reflexivity.
  set (this := fresh (dom (lists m))).
  set (o0 := {| head_ := Node_default; size_ := garbage |}).
  set (m0 := {| lists := <[this := o0]> (lists m); heap := heap m |}).
  assert (lists m !! this = None) as Hthis
    by apply not_elem_of_dom, is_fresh.
  destruct (AddToHead_array_outcome this o0 vs m0)
    as (m' & cs & Hrun & Hcells & Hvs & Hsize & Hother);
    [apply lookup_insert_eq|done|done|].
  rewrite (bind_Ok _ _ _ _ _ Hrun).
  exists this, m'. split; [done|].
  assert (length cs = length vs) as Hlen
    by (by rewrite <-(length_fmap snd cs), Hvs).
  split_and!.
  - done.
  - unfold elements. by rewrite Hcells, Hvs.
  - done.
  - unfold GetSize, read_size_ in Hsize.
    destruct (lists m' !! this) as [o|] eqn:Ho; [|done].
    injection Hsize as Hsize.
    apply cells_chain in Hcells as (o' & Ho' & Hc). simplify_eq.
    apply well_formed_chain. exists o', cs.
    split_and!; [done|done|..]; rewrite Hsize; [by rewrite Hlen|done].
  - intros l Hl. rewrite Hother by done. simpl.
    by rewrite lookup_insert_ne.
Qed.

(** ** Calls that never return *)

(** [begin() const] and [cbegin() const] only call each other: however
    many nested calls are followed, no result comes back. *)
Lemma begin_const_never_returns depth this m :
  begin_const depth this m = OutOfFuel ∧ cbegin depth this m = OutOfFuel.
Proof.
  induction depth as [|depth [IH1 IH2]]; [done|]. by split.
Qed.

Lemma end_const_never_returns depth this m :
  end_const depth this m = OutOfFuel ∧ cend depth this m = OutOfFuel.
Proof.
  induction depth as [|depth [IH1 IH2]]; [done|]. by split.
Qed.

Lemma operator_lt_never_returns depth lhs rhs m :
  operator_lt Type_lt NDEBUG depth lhs rhs m = OutOfFuel.
Proof.
  unfold operator_lt, bind.
  by rewrite (proj1 (begin_const_never_returns depth lhs m)).
Qed.

Lemma operator_ge_never_returns depth lhs rhs m :
  operator_ge Type_lt NDEBUG depth lhs rhs m = OutOfFuel.
Proof.
  unfold operator_ge, bind. by rewrite operator_lt_never_returns.
Qed.

(** [operator==] answers only when the sizes differ. *)
Lemma operator_eq_outcome depth lhs rhs o1 o2 m :
  lists m !! lhs = Some o1 →
  lists m !! rhs = Some o2 →
  operator_eq Type_eq NDEBUG depth lhs rhs m =
  if bool_decide (size_ o1 = size_ o2) then OutOfFuel else Ok false m.
Proof.
  intros H1 H2. unfold operator_eq, GetSize.
  rewrite (bind_Ok _ _ _ _ _ (read_size_Ok _ _ _ H1)).
  rewrite (bind_Ok _ _ _ _ _ (read_size_Ok _ _ _ H2)).
  case_bool_decide; [|done].
  unfold bind. by rewrite (proj2 (begin_const_never_returns depth lhs m)).
Qed.

(** The copy constructor: the assertion on [size_], which was just set
    to the size of [other], and then [other.begin()]. *)
Lemma SingleLinkedList_copy_outcome depth other o m :
  lists m !! other = Some o →
  SingleLinkedList_copy NDEBUG depth other m =
  if NDEBUG || bool_decide (size_ o = 0%N) then OutOfFuel
  else AssertionFailed.
Proof.
  intros Ho. unfold SingleLinkedList_copy.
  rewrite (bind_Ok _ _ _ _ _ (read_size_Ok _ _ _ Ho)).
  erewrite bind_Ok by reflexivity.
  set (m1 := {| lists := _; heap := _ |}).
  assert (lists m1 !! fresh (dom (lists m)) =
          Some {| head_ := Node_default; size_ := size_ o |}) as H1
    by apply lookup_insert_eq.
  assert (bind (read_size_ (fresh (dom (lists m))))
            (λ s', bind (load (head_of (fresh (dom (lists m)))))
                     (λ hd, ret (bool_decide (s' = 0%N)
                                 && bool_decide (next_node hd = nullptr))))
            m1 = Ok (bool_decide (size_ o = 0%N)) m1) as Hc.
  { rewrite (bind_Ok _ _ _ _ _ (read_size_Ok _ _ _ H1)).
    rewrite (bind_Ok _ _ _ _ _ (load_head _ _ _ H1)).
    unfold ret. cbn [size_ head_ next_node Node_default].
    by rewrite andb_true_r. }
  unfold bind at 1. rewrite (assert_outcome _ _ _ Hc).
  destruct (NDEBUG || bool_decide (size_ o = 0%N)); [|done].
  unfold bind.
  by rewrite (proj1 (begin_const_never_returns depth other m1)).
Qed.

(** ** The claims that hold *)

(** C6.  On every list object whose [size_] is below [SIZE_MAX],
    [PushFront(v)] followed by [PopFront()] returns and leaves the memory
    exactly as it was: the same [GetSize()], the same cells and the same
    element sequence.  (At [SIZE_MAX] the counter wraps to zero and the
    assertion of [PopFront] fails.) *)
Theorem PushFront_then_PopFront this v m s :
  GetSize this m = Ok s m →
  (s < SIZE_MAX)%N →
  ∃ m', (PushFront this v ;; PopFront NDEBUG this) m = Ok tt m' ∧
        m' = m ∧
        GetSize this m' = Ok s m' ∧
        cells m' this = cells m this ∧
        elements m' this = elements m this.
Proof.
  intros Hsz Hs. unfold GetSize, read_size_ in Hsz.
  destruct (lists m !! this) as [o|] eqn:Ho; [|done].
  injection Hsz as <-.
  exists m. split; [by eapply PushFront_PopFront_memory|].
  split_and!; [done| |done..]. by apply read_size_Ok.
Qed.

(** X23.  On every well-formed list [Clear()] returns and leaves
    [IsEmpty() == true], [GetSize() == 0] and no element; when the list
    was already empty the memory is unchanged. *)
Theorem Clear_empties this m :
  well_formed m this = true →
  ∃ m', Clear this m = Ok tt m' ∧
        IsEmpty this m' = Ok true m' ∧
        GetSize this m' = Ok 0%N m' ∧
        elements m' this = Some [] ∧
        (IsEmpty this m = Ok true m → m' = m).
Proof.
  intros Hwf.
  apply well_formed_chain in Hwf as (o & cs & Ho & Hc & Hs & Hmax).
  eexists. split; [eapply Clear_Ok; [done..|lia]|].
  rewrite Hs, N.sub_diag. split_and!.
  - erewrite IsEmpty_Ok by apply lookup_insert_eq. done.
  - unfold GetSize. erewrite read_size_Ok by apply lookup_insert_eq. done.
  - unfold elements.
    erewrite cells_nullptr; [done|apply lookup_insert_eq|done].
  - rewrite (IsEmpty_Ok _ _ _ Ho). intros [= Hz%bool_decide_eq_true].
    assert (cs = []) as -> by (apply length_zero_iff_nil; lia).
    unfold chain in Hc. simpl in Hc.
    destruct m as [ls h], o as [[v0 nx] s]; simpl in *. subst.
    by rewrite insert_id.
Qed.

(** C10.  On every well-formed list that is not empty,
    [EraseAfter(before_begin())] and [PopFront()] both return and leave
    the same memory, hence the same element sequence and the same size:
    the first element [x] is removed, the others [xs] stay in order, and
    [GetSize()] is their number.  The iterator returned by [EraseAfter]
    refers to the new first node. *)
Theorem EraseAfter_before_begin_is_PopFront this m :
  well_formed m this = true →
  IsEmpty this m = Ok false m →
  ∃ it m' x xs,
    EraseAfter NDEBUG this (before_begin this) m = Ok it m' ∧
    PopFront NDEBUG this m = Ok tt m' ∧
    elements m this = Some (x :: xs) ∧
    elements m' this = Some xs ∧
    GetSize this m' = Ok (N.of_nat (length xs)) m' ∧
    begin_ this m' = Ok it m'.
Proof.
  intros Hwf Hne.
  apply well_formed_chain in Hwf as (o & cs & Ho & Hc & Hs & Hmax).
  rewrite (IsEmpty_Ok _ _ _ Ho) in Hne.
  injection Hne as Hnz%bool_decide_eq_false.
  destruct cs as [|d cs]; [done|]. cbn [length] in Hs.
  assert (cells m this = Some (d :: cs)) as Hcs
    by (apply cells_chain; eauto).
  destruct (chain_unlink_first _ _ _ _ Hc)
    as (nd & Hnx & Hd & Hvd & Hnd & Hc').
  eexists _, _, d.2, cs.*2.
  erewrite EraseAfter_head_Ok, PopFront_Ok by done.
  split_and!; [done|done|..].
  - unfold elements. by rewrite Hcs.
  - unfold elements.
    assert (∀ m', lists m' !! this =
                  Some {| head_ := {| value := value (head_ o);
                                      next_node := next_node nd |};
                          size_ := size_t_decr (size_ o) |} →
                  heap m' = delete d.1 (heap m) →
                  cells m' this = Some cs) as Hcells.
    { intros m' Hl Hh. apply cells_chain. eexists. split; [done|].
      by rewrite Hh. }
    erewrite Hcells; [done| |done]. apply lookup_insert_eq.
  - unfold GetSize. erewrite read_size_Ok by apply lookup_insert_eq.
    cbn [size_]. rewrite size_t_decr_pos, length_fmap by lia.
    f_equal. lia.
  - unfold begin_. erewrite bind_Ok by (apply load_head, lookup_insert_eq).
    done.
Qed.

(** ** Further properties of the member functions *)

Lemma first_ptr_drop_lookup cs i c :
  cs !! i = Some c → first_ptr (drop i cs) = on_heap c.1.
Proof. intros Hi. by rewrite (drop_S cs c i). Qed.

Lemma first_ptr_drop_ge cs i :
  length cs ≤ i → first_ptr (drop i cs) = nullptr.
Proof. intros Hi. by rewrite drop_ge. Qed.

(** The node of a cell of a chain, and where its link leads. *)
Lemma chain_lookup h p cs i c :
  chain h p cs →
  cs !! i = Some c →
  ∃ n, h !! c.1 = Some n ∧ value n = c.2 ∧
       next_node n = first_ptr (drop (S i) cs).
Proof.
  intros Hc Hi. rewrite <-(take_drop_middle cs i c Hi) in Hc.
  unfold chain in Hc. apply seg_app in Hc as (r & _ & Hs).
  simpl in Hs. destruct Hs as (-> & n & Hn & Hv & Hs).
  exists n. split_and!; [done..|]. by eapply chain_first_ptr.
Qed.

(** X1.  On a list whose chain ends in [nullptr], with cells [cs]:
    [begin()] is the iterator of the first node ([end()] when there is
    none); [++] takes the iterator of place [k] (from [before_begin()],
    place 0, up to the last node) to the iterator of place [k + 1], the
    last node to [end()]; [*] on the iterator of a node yields the value
    stored there; the postfix [++] moves the iterator in the same way
    and returns the iterator as it was.  None of these changes the
    memory. *)
Theorem iterators_walk_the_list this m cs k :
  cells m this = Some cs →
  k ≤ length cs →
  begin_ this m = Ok (iterator_at this cs 1) m ∧
  Iterator_incr NDEBUG (iterator_at this cs k) m
    = Ok (iterator_at this cs (S k)) m ∧
  Iterator_post_incr NDEBUG (iterator_at this cs k) m
    = Ok (iterator_at this cs k, iterator_at this cs (S k)) m ∧
  iterator_at this cs (S (length cs)) = end_ ∧
  (∀ c, cs !! k = Some c →
        Iterator_deref NDEBUG (iterator_at this cs (S k)) m = Ok c.2 m).
Proof.
  intros Hcs Hk. apply cells_chain in Hcs as (o & Ho & Hc).
  assert (next_node (head_ o) = first_ptr (drop 0 cs)) as Hfirst
    by (rewrite drop_0; by eapply chain_first_ptr).
  assert (∀ i c, cs !! i = Some c →
            load (on_heap c.1) m = load (first_ptr (drop i cs)) m ∧
            ∃ n, load (on_heap c.1) m = Ok n m ∧ value n = c.2 ∧
                 next_node n = first_ptr (drop (S i) cs)) as Hnode.
  { intros i c Hi. rewrite (first_ptr_drop_lookup _ _ _ Hi).
    split; [done|].
    destruct (chain_lookup _ _ _ _ _ Hc Hi) as (n & Hn & Hv & Hnx).
    exists n. split_and!; [by apply load_heap|done..]. }
  assert (Iterator_incr NDEBUG (iterator_at this cs k) m
          = Ok (iterator_at this cs (S k)) m) as Hincr.
  { unfold Iterator_incr. destruct k as [|i].
    - erewrite bind_Ok by (by apply assert_holds).
      cbn [iterator_at before_begin node_].
      rewrite (bind_Ok _ _ _ _ _ (load_head _ _ _ Ho)).
      unfold ret. by rewrite Hfirst.
    - destruct (lookup_lt_is_Some_2 cs i) as [c Hi]; [lia|].
      destruct (Hnode i c Hi) as (_ & n & Hload & _ & Hnx).
      cbn [iterator_at node_]. rewrite (first_ptr_drop_lookup _ _ _ Hi).
      erewrite bind_Ok by (by apply assert_holds).
      rewrite (bind_Ok _ _ _ _ _ Hload). unfold ret. by rewrite Hnx. }
  split_and!.
  - unfold begin_. rewrite (bind_Ok _ _ _ _ _ (load_head _ _ _ Ho)).
    unfold ret, iterator_at. by rewrite Hfirst.
  - done.
  - unfold Iterator_post_incr.
    erewrite bind_Ok.
    2:{ apply assert_holds. unfold ret. f_equal.
        destruct k as [|i]; [done|].
        destruct (lookup_lt_is_Some_2 cs i) as [c Hi]; [lia|].
        cbn [iterator_at node_]. by rewrite (first_ptr_drop_lookup _ _ _ Hi). }
    by rewrite (bind_Ok _ _ _ _ _ Hincr).
  - unfold iterator_at, end_. by rewrite first_ptr_drop_ge.
  - intros c Hi. destruct (Hnode k c Hi) as (_ & n & Hload & Hv & _).
    unfold Iterator_deref. cbn [iterator_at node_].
    rewrite (first_ptr_drop_lookup _ _ _ Hi).
    erewrite bind_Ok by (by apply assert_holds).
    rewrite (bind_Ok _ _ _ _ _ Hload). unfold ret. by rewrite Hv.
Qed.

Lemma first_ptr_drop_inj cs i j :
  NoDup cs.*1 →
  i ≤ length cs → j ≤ length cs →
  first_ptr (drop i cs) = first_ptr (drop j cs) → i = j.
Proof.
  intros Hnd Hi Hj Heq.
  destruct (cs !! i) as [ci|] eqn:Hci, (cs !! j) as [cj|] eqn:Hcj.
  - rewrite (first_ptr_drop_lookup _ _ _ Hci),
      (first_ptr_drop_lookup _ _ _ Hcj) in Heq.
    injection Heq as Heq.
    eapply (NoDup_lookup cs.*1 i j ci.1); [done|..];
      rewrite list_lookup_fmap; [by rewrite Hci|by rewrite Hcj, Heq].
  - apply lookup_ge_None in Hcj.
    by rewrite (first_ptr_drop_lookup _ _ _ Hci),
      (first_ptr_drop_ge _ _ Hcj) in Heq.
  - apply lookup_ge_None in Hci.
    by rewrite (first_ptr_drop_lookup _ _ _ Hcj),
      (first_ptr_drop_ge _ _ Hci) in Heq.
  - apply lookup_ge_None in Hci, Hcj. lia.
Qed.

(** X2.  Two iterators into the same list, anywhere from
    [before_begin()] to [end()], compare equal with [==] exactly when
    they stand at the same place, and [!=] is the negation: distinct
    places are distinct nodes. *)
Theorem iterators_equal_iff_same_place this m cs k1 k2 :
  cells m this = Some cs →
  k1 ≤ S (length cs) →
  k2 ≤ S (length cs) →
  Iterator_eq (iterator_at this cs k1) (iterator_at this cs k2)
    = bool_decide (k1 = k2) ∧
  Iterator_ne (iterator_at this cs k1) (iterator_at this cs k2)
    = negb (bool_decide (k1 = k2)).
Proof.
  intros Hcs H1 H2. apply cells_chain in Hcs as (o & Ho & Hc).
  pose proof (chain_NoDup _ _ _ Hc) as Hnd.
  assert (node_ (iterator_at this cs k1) = node_ (iterator_at this cs k2)
          ↔ k1 = k2) as Hiff.
  { split; [|by intros ->].
    destruct k1 as [|i], k2 as [|j]; simpl; [done|..].
    - by destruct (drop j cs).
    - by destruct (drop i cs).
    - intros Heq. f_equal. apply (first_ptr_drop_inj cs); [done|lia..|done]. }
  unfold Iterator_eq, Iterator_ne.
  rewrite (bool_decide_ext _ _ Hiff). done.
Qed.

(** X3.  [++] and [*] on [end()]: with assertions enabled the assertion
    [node_ != nullptr] fails; with assertions disabled the null pointer is
    followed. *)
Theorem iterator_at_end_cannot_move_or_read m :
  Iterator_incr NDEBUG end_ m
    = (if NDEBUG then Undefined else AssertionFailed) ∧
  Iterator_deref NDEBUG end_ m
    = (if NDEBUG then Undefined else AssertionFailed).
Proof.
  unfold Iterator_incr, Iterator_deref, assert_, bind, ret, load, end_.
  by destruct NDEBUG.
Qed.

(** A node that is not allocated is on no chain. *)
Lemma chain_not_allocated h p cs a :
  chain h p cs → h !! a = None → a ∉ cs.*1.
Proof.
  intros Hc Ha Hin.
  apply (chain_dom _ _ _ _ Hc), elem_of_dom in Hin as [? Hin].
  by rewrite Ha in Hin.
Qed.

(** X4.  [PushFront(v)] on a well-formed list with fewer than [SIZE_MAX]
    elements: the value is stored in a newly allocated node that becomes
    the first one, so the elements are [v] followed by the old ones,
    [GetSize()] grows by one, [*begin()] is [v] and the list stays well
    formed.  No other list object is touched, and every other list keeps
    its cells. *)
Theorem PushFront_prepends this v m cs :
  well_formed m this = true →
  cells m this = Some cs →
  (N.of_nat (length cs) < SIZE_MAX)%N →
  ∃ a m',
    PushFront this v m = Ok tt m' ∧
    heap m !! a = None ∧
    cells m' this = Some ((a, v) :: cs) ∧
    elements m' this = Some (v :: cs.*2) ∧
    GetSize this m' = Ok (N.of_nat (S (length cs))) m' ∧
    well_formed m' this = true ∧
    (let* b := begin_ this in Iterator_deref NDEBUG b) m' = Ok v m' ∧
    (∀ l, l ≠ this → lists m' !! l = lists m !! l) ∧
    (∀ other cs', other ≠ this →
       cells m other = Some cs' → cells m' other = Some cs').
Proof.
  intros Hwf Hcs Hlt.
  apply well_formed_chain in Hwf as (o & cs0 & Ho & Hc & Hs & Hmax).
  assert (cs0 = cs) as ->.
  { apply cells_chain in Hcs as (o' & Ho' & Hc'). simplify_eq.
    by eapply chain_det. }
  pose proof (fresh_heap_None (heap m)) as Hfresh.
  set (a := fresh (dom (heap m))) in *.
  assert (size_t_incr (size_ o) = N.of_nat (S (length cs))) as Hincr.
  { unfold size_t_incr. rewrite N.mod_small; unfold SIZE_MAX in *; lia. }
  set (m' := {| lists := <[this := {| head_ := {| value := value (head_ o);
                                                   next_node := on_heap a |};
                                       size_ := size_t_incr (size_ o) |}]>
                            (lists m);
                 heap := <[a := {| value := v;
                                   next_node := next_node (head_ o) |}]>
                           (heap m) |}).
  assert (PushFront this v m = Ok tt m') as Hrun by (by apply PushFront_Ok).
  assert (chain (heap m') (on_heap a) ((a, v) :: cs)) as Hc'.
  { unfold chain. simpl. split; [done|]. eexists.
    rewrite lookup_insert_eq. split_and!; [done..|]. simpl.
    apply seg_insert_ne; [|done]. by eapply chain_not_allocated. }
  assert (cells m' this = Some ((a, v) :: cs)) as Hcells.
  { apply cells_chain. eexists. simpl. by rewrite lookup_insert_eq. }
  exists a, m'. split_and!; [done|done|done|..].
  - unfold elements. by rewrite Hcells.
  - unfold GetSize. erewrite read_size_Ok by apply lookup_insert_eq.
    cbn [size_]. by rewrite Hincr.
  - apply well_formed_chain. eexists _, _. simpl.
    rewrite lookup_insert_eq. split_and!; [done|done|..]; cbn [size_].
    + by rewrite Hincr.
    + rewrite Hincr. lia.
  - unfold begin_.
    erewrite bind_Ok.
    2:{ erewrite bind_Ok by (apply load_head, lookup_insert_eq). done. }
    unfold Iterator_deref. cbn [node_ head_ next_node].
    erewrite bind_Ok by (by apply assert_holds).
    erewrite bind_Ok by (apply load_heap, lookup_insert_eq). done.
  - intros l Hl. simpl. by rewrite lookup_insert_ne.
  - intros other cs' Hne Hcs'.
    apply cells_chain in Hcs' as (o' & Ho' & Hco).
    apply cells_chain. exists o'. simpl.
    rewrite lookup_insert_ne by done. split; [done|].
    apply seg_insert_ne; [|done]. by eapply chain_not_allocated.
Qed.

Lemma bind_Undefined {A B} (c : M A) (k : A → M B) m :
  c m = Undefined → bind c k m = Undefined.
Proof. unfold bind. by intros ->. Qed.

Lemma bind_AssertionFailed {A B} (c : M A) (k : A → M B) m :
  c m = AssertionFailed → bind c k m = AssertionFailed.
Proof. unfold bind. by intros ->. Qed.

(** X5.  [PopFront()] on a well-formed list that is not empty removes
    the first element and frees its node, and only that node; the other
    elements stay in order, [GetSize()] is their number, the list stays
    well formed and no other list object is touched. *)
Theorem PopFront_removes_first this m c cs :
  well_formed m this = true →
  cells m this = Some (c :: cs) →
  ∃ m',
    PopFront NDEBUG this m = Ok tt m' ∧
    cells m' this = Some cs ∧
    elements m' this = Some cs.*2 ∧
    heap m' = delete c.1 (heap m) ∧
    GetSize this m' = Ok (N.of_nat (length cs)) m' ∧
    well_formed m' this = true ∧
    (∀ l, l ≠ this → lists m' !! l = lists m !! l).
Proof.
  intros Hwf Hcs.
  apply well_formed_chain in Hwf as (o & cs0 & Ho & Hc & Hs & Hmax).
  assert (cs0 = c :: cs) as ->.
  { apply cells_chain in Hcs as (o' & Ho' & Hc'). simplify_eq.
    by eapply chain_det. }
  cbn [length] in Hs.
  destruct (chain_unlink_first _ _ _ _ Hc)
    as (nd & Hnx & Hd & Hvd & Hnd & Hc').
  assert (size_t_decr (size_ o) = N.of_nat (length cs)) as Hdecr.
  { rewrite size_t_decr_pos; lia. }
  eexists. erewrite PopFront_Ok; [ | done | lia | done..].
  assert (cells {| lists := <[this := {| head_ :=
                                           {| value := value (head_ o);
                                              next_node := next_node nd |};
                                         size_ := size_t_decr (size_ o) |}]>
                              (lists m);
                   heap := delete c.1 (heap m) |} this = Some cs) as Hcells.
  { apply cells_chain. eexists. simpl. by rewrite lookup_insert_eq. }
  split_and!; [done|done|..].
  - unfold elements. by rewrite Hcells.
  - done.
  - unfold GetSize. erewrite read_size_Ok by apply lookup_insert_eq.
    cbn [size_]. by rewrite Hdecr.
  - apply well_formed_chain. eexists _, cs. simpl.
    rewrite lookup_insert_eq. split_and!; [done|done|..]; cbn [size_].
    + done.
    + rewrite Hdecr. lia.
  - intros l Hl. simpl. by rewrite lookup_insert_ne.
Qed.

(** X6.  [PopFront()] on a well-formed empty list: with assertions
    enabled [assert(!IsEmpty())] fails; with assertions disabled the null
    [head_.next_node] is followed. *)
Theorem PopFront_on_empty_list this m :
  well_formed m this = true →
  cells m this = Some [] →
  PopFront NDEBUG this m = (if NDEBUG then Undefined else AssertionFailed).
Proof.
  intros Hwf Hcs.
  apply well_formed_chain in Hwf as (o & cs0 & Ho & Hc & Hs & Hmax).
  assert (cs0 = []) as ->.
  { apply cells_chain in Hcs as (o' & Ho' & Hc'). simplify_eq.
    by eapply chain_det. }
  unfold chain in Hc. simpl in Hc, Hs. unfold PopFront, assert_.
  destruct NDEBUG.
  - erewrite bind_Ok by reflexivity.
    rewrite (bind_Ok _ _ _ _ _ (load_head _ _ _ Ho)). by rewrite Hc.
  - apply bind_AssertionFailed.
    erewrite bind_Ok.
    2:{ rewrite (bind_Ok _ _ _ _ _ (IsEmpty_Ok _ _ _ Ho)). done. }
    by rewrite bool_decide_eq_true_2.
Qed.

(** X7.  [EraseAfter(pos)] where nothing follows [pos] in a well-formed
    list.  On an empty list ([pos] is [before_begin()]) the assertion
    [!IsEmpty()] fails, or with assertions disabled a null pointer is
    followed.  On a list that is not empty ([pos] is its last node) both
    assertions pass and a null pointer is followed, with assertions
    enabled or not. *)
Theorem EraseAfter_without_successor this pos m cs :
  well_formed m this = true →
  cells m this = Some cs →
  position m this pos = Some (length cs) →
  EraseAfter NDEBUG this pos m =
  match cs with
  | [] => if NDEBUG then Undefined else AssertionFailed
  | _ :: _ => Undefined
  end.
Proof.
  intros Hwf Hcs Hpos.
  apply well_formed_chain in Hwf as (o & cs0 & Ho & Hc & Hs & Hmax).
  assert (cs0 = cs) as ->.
  { apply cells_chain in Hcs as (o' & Ho' & Hc'). simplify_eq.
    by eapply chain_det. }
  unfold EraseAfter.
  destruct (position_Some _ _ _ _ _ Hcs Hpos)
    as [[-> Hlen]|(i & c & Hlen & -> & Hi)].
  - destruct cs; [|done]. unfold chain in Hc. simpl in Hc, Hs.
    unfold assert_. destruct NDEBUG.
    + erewrite bind_Ok by reflexivity.
      erewrite bind_Ok by reflexivity.
      cbn [before_begin node_].
      rewrite (bind_Ok _ _ _ _ _ (load_head _ _ _ Ho)). by rewrite Hc.
    + apply bind_AssertionFailed.
      erewrite bind_Ok.
      2:{ rewrite (bind_Ok _ _ _ _ _ (IsEmpty_Ok _ _ _ Ho)). done. }
      by rewrite bool_decide_eq_true_2.
  - destruct (chain_lookup _ _ _ _ _ Hc Hi) as (n & Hn & _ & Hnx).
    rewrite first_ptr_drop_ge in Hnx by lia.
    destruct cs as [|c0 cs]; [done|].
    erewrite bind_Ok by (eapply assert_not_empty; [done|]; simpl in Hs; lia).
    erewrite bind_Ok by (by apply assert_holds).
    cbn [node_].
    rewrite (bind_Ok _ _ _ _ _ (load_heap _ _ _ Hn)). by rewrite Hnx.
Qed.

Lemma position_le m this pos k cs :
  cells m this = Some cs → position m this pos = Some k → k ≤ length cs.
Proof.
  intros Hcs Hpos.
  destruct (position_Some _ _ _ _ _ Hcs Hpos)
    as [[_ ->]|(i & c & -> & _ & Hi)]; [lia|].
  apply lookup_lt_Some in Hi. lia.
Qed.

Lemma GetSize_inv this s m m' :
  GetSize this m = Ok s m' →
  ∃ o, lists m !! this = Some o ∧ size_ o = s ∧ m' = m.
Proof.
  unfold GetSize, read_size_.
  destruct (lists m !! this) as [o|]; [|done]. intros [= <- <-]. eauto.
Qed.

(** X8.  [InsertAfter(pos, v)] on a well-formed list with cells [cs] and
    fewer than [SIZE_MAX] elements, for [pos] at place [k]
    ([before_begin()] or a node of the list).  The call returns an
    iterator to a newly allocated node that holds [v]; the list then
    holds the first [k] old elements followed by [v], and the old
    elements after place [k] are no longer in it; [GetSize()] is the old
    size plus one.  So the list is well formed afterwards exactly when
    [pos] was the last place. *)
Theorem InsertAfter_keeps_the_elements_up_to_pos this pos v m cs k :
  well_formed m this = true →
  cells m this = Some cs →
  position m this pos = Some k →
  (N.of_nat (length cs) < SIZE_MAX)%N →
  ∃ it a m',
    InsertAfter NDEBUG this pos v m = Ok it m' ∧
    node_ it = on_heap a ∧
    heap m !! a = None ∧
    Iterator_deref NDEBUG it m' = Ok v m' ∧
    cells m' this = Some (take k cs ++ [(a, v)]) ∧
    elements m' this = Some (take k cs.*2 ++ [v]) ∧
    GetSize this m' = Ok (N.of_nat (S (length cs))) m' ∧
    well_formed m' this = bool_decide (k = length cs).
Proof.
  intros Hwf Hcs Hpos Hlt.
  pose proof (position_le _ _ _ _ _ Hcs Hpos) as Hk.
  destruct (InsertAfter_outcome this pos v m cs k Hwf Hcs Hpos)
    as (a & m' & Hrun & Ha & Hcells & Hsize).
  assert (size_t_incr (N.of_nat (length cs)) = N.of_nat (S (length cs)))
    as Hincr.
  { unfold size_t_incr. rewrite N.mod_small; unfold SIZE_MAX in *; lia. }
  rewrite Hincr in Hsize.
  exists {| node_ := on_heap a |}, a, m'.
  split_and!; [done|done|done|..|done|].
  - pose proof Hcells as Hc'.
    apply cells_chain in Hc' as (o' & Ho' & Hc').
    destruct (chain_lookup _ _ _ (length (take k cs)) (a, v) Hc')
      as (n & Hn & Hv & _).
    { by rewrite lookup_app_r, Nat.sub_diag. }
    unfold Iterator_deref. cbn [node_].
    erewrite bind_Ok by (by apply assert_holds).
    rewrite (bind_Ok _ _ _ _ _ (load_heap _ _ _ Hn)). unfold ret.
    by rewrite Hv.
  - done.
  - unfold elements. rewrite Hcells, fmap_app, fmap_take. done.
  - destruct (GetSize_inv _ _ _ _ Hsize) as (o' & Ho' & Hs' & _).
    unfold well_formed. rewrite Ho', Hcells, Hs'.
    rewrite length_app, length_take_le by done. cbn [length].
    rewrite (bool_decide_eq_true_2 (_ ≤ _)%N) by lia.
    rewrite andb_true_r. apply bool_decide_ext. lia.
Qed.

(** X9.  [InsertAfter(end(), v)]: with assertions enabled
    [assert(pos != end())] fails; with assertions disabled the node is
    allocated and then a null pointer is written through. *)
Theorem InsertAfter_at_end this v m :
  InsertAfter NDEBUG this end_ v m
    = (if NDEBUG then Undefined else AssertionFailed).
Proof.
  unfold InsertAfter, assert_, bind, ret, new_Node, store_next_node,
    Iterator_ne, end_.
  by destruct NDEBUG.
Qed.

(** X10.  At the last place of a well-formed list with fewer than
    [SIZE_MAX] elements ([before_begin()] when it is empty),
    [InsertAfter(pos, v)] followed by [EraseAfter(pos)] returns [end()]
    and leaves the memory exactly as it was. *)
Theorem InsertAfter_then_EraseAfter_at_the_last_place this pos v m cs :
  well_formed m this = true →
  cells m this = Some cs →
  position m this pos = Some (length cs) →
  (N.of_nat (length cs) < SIZE_MAX)%N →
  (InsertAfter NDEBUG this pos v ;; EraseAfter NDEBUG this pos) m
    = Ok end_ m.
Proof.
  intros Hwf Hcs Hpos Hlt.
  apply well_formed_chain in Hwf as (o & cs0 & Ho & Hc & Hs & Hmax).
  assert (cs0 = cs) as ->.
  { apply cells_chain in Hcs as (o' & Ho' & Hc'). simplify_eq.
    by eapply chain_det. }
  pose proof (fresh_heap_None (heap m)) as Hfresh.
  assert (size_ o < SIZE_MAX)%N as Hlt' by lia.
  destruct (position_Some _ _ _ _ _ Hcs Hpos)
    as [[-> Hlen]|(i & c & Hlen & -> & Hi)].
  - destruct cs; [|done]. unfold chain in Hc. simpl in Hc.
    rewrite (bind_Ok _ _ _ _ _ (InsertAfter_head_Ok _ _ v _ Ho)).
    erewrite EraseAfter_head_Ok;
      [ | apply lookup_insert_eq | by apply size_t_incr_nonzero
        | reflexivity | apply lookup_insert_eq ].
    simpl. rewrite insert_insert_eq, size_t_decr_incr by done.
    rewrite delete_insert_eq, delete_id by done.
    destruct m as [ls h], o as [[v0 nx] s]; simpl in *. subst nx.
    by rewrite insert_id.
  - destruct (chain_lookup _ _ _ _ _ Hc Hi) as (n & Hn & _ & Hnx).
    rewrite first_ptr_drop_ge in Hnx by lia.
    assert (c.1 ≠ fresh (dom (heap m))) as Hne.
    { intros Heq. rewrite Heq in Hn. by rewrite Hfresh in Hn. }
    rewrite (bind_Ok _ _ _ _ _ (InsertAfter_heap_Ok _ _ _ _ v _ Ho Hn)).
    erewrite EraseAfter_heap_Ok;
      [ | apply lookup_insert_eq | by apply size_t_incr_nonzero
        | apply lookup_insert_eq | reflexivity
        | simpl; rewrite lookup_insert_ne by done; apply lookup_insert_eq
        | done ].
    simpl. rewrite insert_insert_eq, size_t_decr_incr by done.
    rewrite delete_insert_ne, delete_insert_eq, delete_id by done.
    rewrite insert_insert_eq.
    destruct m as [ls h], o as [hd s], n as [vn nx]; simpl in *. subst nx.
    by rewrite !insert_id.
Qed.

Lemma lookup_foldl_delete h (l : list positive) a :
  foldl (λ h a, delete a h) h l !! a
  = if decide (a ∈ l) then None else h !! a.
Proof.
  revert h. induction l as [|b l IH]; intros h; cbn [foldl].
  - case_decide as Hin; [|done]. by apply elem_of_nil in Hin.
  - rewrite IH. destruct (decide (a ∈ l)) as [Hin|Hnin].
    + case_decide as Hin'; [done|]. destruct Hin'. by right.
    + destruct (decide (a = b)) as [->|Hne].
      * case_decide as Hin'; [apply lookup_delete_eq|].
        destruct Hin'. left.
      * rewrite lookup_delete_ne by done.
        case_decide as Hin'; [|done].
        apply elem_of_cons in Hin' as [?|?]; done.
Qed.

(** A chain only depends on its own nodes. *)
Lemma seg_agree h h' p cs q :
  (∀ a, a ∈ cs.*1 → h' !! a = h !! a) → seg h p cs q → seg h' p cs q.
Proof.
  revert p. induction cs as [|c cs IH]; intros p Hag; simpl; [done|].
  intros (-> & n & Hn & Hv & Hs). split; [done|]. exists n.
  rewrite Hag by (rewrite fmap_cons; left). split_and!; [done..|].
  apply IH; [|done]. intros a Ha. apply Hag. rewrite fmap_cons. by right.
Qed.

(** X11.  [Clear()] on a well-formed list frees every node of the list
    and no other node, touches no other list object, and leaves every
    list that shares no node with it with the cells it had. *)
Theorem Clear_frees_exactly_the_nodes_of_the_list this m cs :
  well_formed m this = true →
  cells m this = Some cs →
  ∃ m',
    Clear this m = Ok tt m' ∧
    (∀ a, a ∈ cs.*1 → heap m' !! a = None) ∧
    (∀ a, a ∉ cs.*1 → heap m' !! a = heap m !! a) ∧
    (∀ l, l ≠ this → lists m' !! l = lists m !! l) ∧
    (∀ other cs', other ≠ this →
       cells m other = Some cs' →
       (∀ a, a ∈ cs'.*1 → a ∉ cs.*1) →
       cells m' other = Some cs').
Proof.
  intros Hwf Hcs.
  apply well_formed_chain in Hwf as (o & cs0 & Ho & Hc & Hs & Hmax).
  assert (cs0 = cs) as ->.
  { apply cells_chain in Hcs as (o' & Ho' & Hc'). simplify_eq.
    by eapply chain_det. }
  eexists. split; [eapply Clear_Ok; [done..|lia]|]. simpl.
  split_and!.
  - intros a Ha. by rewrite lookup_foldl_delete, decide_True.
  - intros a Ha. by rewrite lookup_foldl_delete, decide_False.
  - intros l Hl. by rewrite lookup_insert_ne.
  - intros other cs' Hne Hcs' Hdisj.
    apply cells_chain in Hcs' as (o' & Ho' & Hco).
    apply cells_chain. exists o'. simpl.
    rewrite lookup_insert_ne by done. split; [done|].
    eapply seg_agree; [|done]. intros a Ha.
    rewrite lookup_foldl_delete, decide_False; [done|by apply Hdisj].
Qed.

(** X12.  The destructor of a well-formed list returns; afterwards the
    list object is gone, every node of the list is freed and no other
    node, and no other list object is touched. *)
Theorem destructor_releases_the_list this m cs :
  well_formed m this = true →
  cells m this = Some cs →
  ∃ m',
    SingleLinkedList_destroy this m = Ok tt m' ∧
    lists m' !! this = None ∧
    (∀ a, a ∈ cs.*1 → heap m' !! a = None) ∧
    (∀ a, a ∉ cs.*1 → heap m' !! a = heap m !! a) ∧
    (∀ l, l ≠ this → lists m' !! l = lists m !! l).
Proof.
  intros Hwf Hcs.
  apply well_formed_chain in Hwf as (o & cs0 & Ho & Hc & Hs & Hmax).
  assert (cs0 = cs) as ->.
  { apply cells_chain in Hcs as (o' & Ho' & Hc'). simplify_eq.
    by eapply chain_det. }
  unfold SingleLinkedList_destroy.
  erewrite bind_Ok by (eapply Clear_Ok; [done..|lia]).
  unfold delete_object. simpl. rewrite lookup_insert_eq.
  eexists. split; [done|]. simpl. split_and!.
  - apply lookup_delete_eq.
  - intros a Ha. by rewrite lookup_foldl_delete, decide_True.
  - intros a Ha. by rewrite lookup_foldl_delete, decide_False.
  - intros l Hl. by rewrite lookup_delete_ne, lookup_insert_ne.
Qed.

Lemma Memory_eq m m' :
  lists m' = lists m → heap m' = heap m → m' = m.
Proof. destruct m, m'. simpl. by intros -> ->. Qed.

Lemma swap_self this o m :
  lists m !! this = Some o → swap this this m = Ok tt m.
Proof.
  intros Ho. unfold swap.
  rewrite (bind_Ok _ _ _ _ _ (load_head _ _ _ Ho)).
  rewrite (bind_Ok _ _ _ _ _ (load_head _ _ _ Ho)).
  erewrite bind_Ok by (by apply store_next_head).
  erewrite bind_Ok by (apply store_next_head, lookup_insert_eq).
  erewrite bind_Ok by (apply read_size_Ok, lookup_insert_eq).
  erewrite bind_Ok by (apply read_size_Ok, lookup_insert_eq).
  erewrite bind_Ok by (apply write_size_Ok, lookup_insert_eq).
  erewrite write_size_Ok by apply lookup_insert_eq.
  f_equal. apply Memory_eq; [|done]. simpl.
  rewrite !insert_insert_eq.
  destruct o as [[v0 nx] s]. simpl. by rewrite insert_id.
Qed.

(** X13.  [swap] of two distinct well-formed lists, through the member
    or the non-member function: each list then has the cells and the
    size the other had, both are well formed, no node is allocated,
    freed or changed, and no other list object is touched. *)
Theorem swap_exchanges_the_contents this other m cs1 cs2 :
  this ≠ other →
  well_formed m this = true →
  well_formed m other = true →
  cells m this = Some cs1 →
  cells m other = Some cs2 →
  ∃ m',
    swap this other m = Ok tt m' ∧
    swap_nonmember this other m = Ok tt m' ∧
    heap m' = heap m ∧
    cells m' this = Some cs2 ∧
    cells m' other = Some cs1 ∧
    GetSize this m' = Ok (N.of_nat (length cs2)) m' ∧
    GetSize other m' = Ok (N.of_nat (length cs1)) m' ∧
    well_formed m' this = true ∧
    well_formed m' other = true ∧
    (∀ l, l ≠ this → l ≠ other → lists m' !! l = lists m !! l).
Proof.
  intros Hne Hwf1 Hwf2 Hcs1 Hcs2.
  apply well_formed_chain in Hwf1 as (o1 & cs1' & Ho1 & Hc1 & Hs1 & Hm1).
  apply well_formed_chain in Hwf2 as (o2 & cs2' & Ho2 & Hc2 & Hs2 & Hm2).
  assert (cs1' = cs1) as ->.
  { apply cells_chain in Hcs1 as (o' & Ho' & Hc'). simplify_eq.
    by eapply chain_det. }
  assert (cs2' = cs2) as ->.
  { apply cells_chain in Hcs2 as (o' & Ho' & Hc'). simplify_eq.
    by eapply chain_det. }
  destruct (swap_Ok this other o1 o2 m Hne Ho1 Ho2)
    as (m' & Hswap & Hh & H1 & H2 & Hother).
  exists m'. split_and!; [done|done|done|..|done].
  - apply cells_chain. eexists. split; [done|]. simpl. by rewrite Hh.
  - apply cells_chain. eexists. split; [done|]. simpl. by rewrite Hh.
  - unfold GetSize. erewrite read_size_Ok by done. simpl. by rewrite Hs2.
  - unfold GetSize. erewrite read_size_Ok by done. simpl. by rewrite Hs1.
  - apply well_formed_chain. eexists _, cs2.
    split_and!; [done|simpl; by rewrite Hh|done..].
  - apply well_formed_chain. eexists _, cs1.
    split_and!; [done|simpl; by rewrite Hh|done..].
Qed.

(** X14.  [swap] applied twice to the same two list objects leaves the
    memory exactly as it was, and so does one [swap] of a list with
    itself. *)
Theorem swap_twice_changes_nothing a b o1 o2 m :
  lists m !! a = Some o1 →
  lists m !! b = Some o2 →
  (swap a b ;; swap a b) m = Ok tt m ∧
  swap a a m = Ok tt m.
Proof.
  intros H1 H2. split; [|by eapply swap_self].
  destruct (decide (a = b)) as [->|Hne].
  - rewrite (bind_Ok _ _ _ _ _ (swap_self _ _ _ H1)). by eapply swap_self.
  - destruct (swap_Ok a b o1 o2 m Hne H1 H2)
      as (m1 & Hswap1 & Hh1 & H1a & H1b & H1o).
    destruct (swap_Ok a b _ _ m1 Hne H1a H1b)
      as (m2 & Hswap2 & Hh2 & H2a & H2b & H2o).
    rewrite (bind_Ok _ _ _ _ _ Hswap1), Hswap2. f_equal.
    apply Memory_eq; [|by rewrite Hh2].
    apply map_eq. intros l.
    destruct (decide (l = a)) as [->|Hla].
    { rewrite H2a, H1. simpl. by destruct o1 as [[??] ?]. }
    destruct (decide (l = b)) as [->|Hlb].
    { rewrite H2b, H2. simpl. by destruct o2 as [[??] ?]. }
    by rewrite H2o, H1o.
Qed.

(** X15.  The default constructor returns a new list object, at an
    address no list object had, that is empty and well formed: [IsEmpty()]
    is true, [GetSize()] is 0, [begin()] is [end()].  It allocates no
    node and touches no other list object. *)
Theorem default_constructor_makes_an_empty_list m :
  ∃ this m',
    SingleLinkedList_new m = Ok this m' ∧
    lists m !! this = None ∧
    heap m' = heap m ∧
    elements m' this = Some [] ∧
    IsEmpty this m' = Ok true m' ∧
    GetSize this m' = Ok 0%N m' ∧
    begin_ this m' = Ok end_ m' ∧
    well_formed m' this = true ∧
    (∀ l, l ≠ this → lists m' !! l = lists m !! l).
Proof.
  eexists _, _. split; [reflexivity|].
  set (this := fresh (dom (lists m))).
  assert (cells {| lists := <[this := {| head_ := Node_default;
                                         size_ := 0%N |}]> (lists m);
                   heap := heap m |} this = Some []) as Hcells
    by (eapply cells_nullptr; [apply lookup_insert_eq|done]).
  split_and!.
  - apply not_elem_of_dom, is_fresh.
  - done.
  - unfold elements. by rewrite Hcells.
  - by erewrite IsEmpty_Ok by apply lookup_insert_eq.
  - unfold GetSize. by erewrite read_size_Ok by apply lookup_insert_eq.
  - unfold begin_.
    by erewrite bind_Ok by (apply load_head, lookup_insert_eq).
  - unfold well_formed. rewrite Hcells. simpl.
    by rewrite lookup_insert_eq.
  - intros l Hl. simpl. by rewrite lookup_insert_ne.
Qed.

(** X16.  The constructor from an initializer list of at most [SIZE_MAX]
    values returns a new, well-formed list object that holds the values
    in their order, with [GetSize()] their number, whatever the
    uninitialised [size_] held; no other list object is touched. *)
Theorem initializer_list_constructor_holds_the_values
    garbage (vs : list Type_) m :
  (N.of_nat (length vs) ≤ SIZE_MAX)%N →
  ∃ this m',
    SingleLinkedList_init NDEBUG garbage vs m = Ok this m' ∧
    lists m !! this = None ∧
    elements m' this = Some vs ∧
    GetSize this m' = Ok (N.of_nat (length vs)) m' ∧
    well_formed m' this = true ∧
    (∀ l, l ≠ this → lists m' !! l = lists m !! l).
Proof. apply SingleLinkedList_init_outcome. Qed.

(** X17.  Copy assignment.  Assigning a list to itself returns at once
    and changes nothing.  Assigning from another list object goes through
    the copy constructor and never completes: with assertions enabled and
    a source whose [size_] is not zero the assertion of the copy
    constructor fails, otherwise the call of [begin() const] yields no
    result however deep the calls are followed. *)
Theorem assignment_outcome depth this rhs o m :
  lists m !! rhs = Some o →
  assign NDEBUG depth this rhs m =
  if bool_decide (this = rhs) then Ok tt m
  else if NDEBUG || bool_decide (size_ o = 0%N) then OutOfFuel
  else AssertionFailed.
Proof.
  intros Ho. unfold assign.
  destruct (decide (this = rhs)) as [->|Hne].
  - rewrite bool_decide_eq_false_2 by (by intros ?).
    by rewrite bool_decide_eq_true_2.
  - rewrite bool_decide_eq_true_2, (bool_decide_eq_false_2 (this = rhs))
      by done.
    unfold bind. rewrite (SingleLinkedList_copy_outcome _ _ _ _ Ho).
    by destruct (NDEBUG || bool_decide (size_ o = 0%N)).
Qed.

(** X19.  [operator<], [operator<=] and [operator>] never answer:
    whatever the two lists are, the first thing evaluated is
    [begin() const], which yields no result however deep the calls are
    followed. *)
Theorem ordering_operators_never_answer depth lhs rhs m :
  operator_lt Type_lt NDEBUG depth lhs rhs m = OutOfFuel ∧
  operator_le Type_lt NDEBUG depth lhs rhs m = OutOfFuel ∧
  operator_gt Type_lt NDEBUG depth lhs rhs m = OutOfFuel.
Proof.
  split_and!.
  - apply operator_lt_never_returns.
  - unfold operator_le, bind. by rewrite operator_lt_never_returns.
  - apply operator_lt_never_returns.
Qed.

(** X20.  On a const list, [begin()], [cbegin()], [end()] and [cend()]
    yield no result, however deep their calls of each other are followed,
    whereas [before_begin()] and [cbefore_begin()] return the iterator of
    the sentinel, the one the overload for lists that are not const
    returns. *)
Theorem const_iterators_of_a_list depth this m :
  begin_const depth this m = OutOfFuel ∧
  cbegin depth this m = OutOfFuel ∧
  end_const depth this m = OutOfFuel ∧
  cend depth this m = OutOfFuel ∧
  before_begin_const this = before_begin this ∧
  cbefore_begin this = before_begin this.
Proof.
  destruct (begin_const_never_returns depth this m) as [? ?].
  destruct (end_const_never_returns depth this m) as [? ?].
  by split_and!.
Qed.

(** X21.  On a well-formed list [IsEmpty()] is true exactly when
    [begin() == end()], exactly when the list holds no element, and
    [GetSize()] is the number of elements a walk from [begin()] meets. *)
Theorem IsEmpty_iff_begin_is_end this m :
  well_formed m this = true →
  ∃ b it xs,
    IsEmpty this m = Ok b m ∧
    begin_ this m = Ok it m ∧
    elements m this = Some xs ∧
    GetSize this m = Ok (N.of_nat (length xs)) m ∧
    b = Iterator_eq it end_ ∧
    (b = true ↔ xs = []).
Proof.
  intros Hwf.
  apply well_formed_chain in Hwf as (o & cs & Ho & Hc & Hs & Hmax).
  assert (cells m this = Some cs) as Hcs by (apply cells_chain; eauto).
  pose proof (chain_first_ptr _ _ _ Hc) as Hfirst.
  exists (bool_decide (size_ o = 0%N)), {| node_ := next_node (head_ o) |},
    cs.*2.
  split_and!.
  - by apply IsEmpty_Ok.
  - unfold begin_. by rewrite (bind_Ok _ _ _ _ _ (load_head _ _ _ Ho)).
  - unfold elements. by rewrite Hcs.
  - unfold GetSize. rewrite (read_size_Ok _ _ _ Ho), length_fmap.
    by rewrite Hs.
  - unfold Iterator_eq, end_. cbn [node_]. rewrite Hfirst, Hs.
    by destruct cs.
  - rewrite bool_decide_eq_true, Hs. destruct cs; simpl; [done|].
    split; [lia|done].
Qed.

(** ** AddToHead over a range of list iterators *)

Lemma store_next_node_heap p q m1 m2 x :
  store_next_node p q m1 = Ok tt m2 →
  p ≠ on_heap x →
  heap m2 !! x = heap m1 !! x.
Proof.
  unfold store_next_node. destruct p as [|l|a]; [done|..].
  - destruct (lists m1 !! l); [|done]. by intros [= <-].
  - destruct (heap m1 !! a); [|done]. intros [= <-] Hne. simpl.
    apply lookup_insert_ne. by intros ->.
Qed.

Lemma last_ptr_not_in tmp cs x :
  x ∉ cs.*1 → last_ptr tmp cs ≠ on_heap x.
Proof.
  intros Hx. unfold last_ptr.
  destruct (list.last cs) as [c|] eqn:Hlast; [|done].
  intros [= Heq]. apply Hx. rewrite <-Heq.
  apply list_elem_of_fmap_2. apply last_Some in Hlast as [l' ->].
  apply elem_of_app. right. left.
Qed.

(** The loop of [AddToHead] over the nodes [rem] of another chain:
    entered with the cells [cs] already in the chain of [tmp], it appends
    one new node for each node of [rem], with the same value, and changes
    no node that was allocated outside the chain of [tmp]. *)
Lemma AddToHead_loop_list rem : ∀ fuel tmp m o cs,
  lists m !! tmp = Some o →
  chain (heap m) (next_node (head_ o)) cs →
  chain (heap m) (first_ptr rem) rem →
  (∀ a, a ∈ cs.*1 → a ∉ rem.*1) →
  size_ o = N.of_nat (length cs) →
  (N.of_nat (length cs + length rem) ≤ SIZE_MAX)%N →
  length rem < fuel →
  ∃ m' o' cs',
    AddToHead_loop NDEBUG (InputIterator0 := BasicIterator_input NDEBUG)
      fuel tmp (last_ptr tmp cs) {| node_ := first_ptr rem |} end_ m
    = Ok tt m' ∧
    lists m' = <[tmp := o']> (lists m) ∧
    chain (heap m') (next_node (head_ o')) cs' ∧
    cs'.*2 = cs.*2 ++ rem.*2 ∧
    size_ o' = N.of_nat (length cs') ∧
    (∀ a, a ∉ cs.*1 → is_Some (heap m !! a) → heap m' !! a = heap m !! a) ∧
    (∀ a, a ∈ cs'.*1 → a ∈ cs.*1 ∨ heap m !! a = None).
Proof.
  induction rem as [|c rem IH];
    intros [|fuel] tmp m o cs Ho Hc Hrem Hdisj Hs Hmax Hf;
    simpl in Hf; try lia.
  - cbn [AddToHead_loop input_ne BasicIterator_input first_ptr].
    exists m, o, cs. split_and!; [done| |done| |done|done|by left].
    + by rewrite insert_id.
    + by rewrite app_nil_r.
  - pose proof (chain_NoDup _ _ _ Hrem) as Hnd.
    rewrite fmap_cons in Hnd. apply list.NoDup_cons in Hnd as [Hc1 _].
    pose proof Hrem as Hrem0.
    unfold chain in Hrem. simpl in Hrem.
    destruct Hrem as (_ & nc & Hnc & Hvc & Hrem').
    pose proof (chain_first_ptr _ _ _ Hrem') as Hnx.
    pose proof (fresh_heap_None (heap m)) as Hfresh.
    set (a := fresh (dom (heap m))) in *.
    assert (c.1 ≠ a) as Hca.
    { intros Heq. rewrite Heq in Hnc. by rewrite Hfresh in Hnc. }
    assert (c.1 ∉ cs.*1) as Hccs.
    { intros Hin. apply (Hdisj _ Hin). rewrite fmap_cons. left. }
    destruct (append_node tmp o cs a c.2 m Ho Hc Hfresh)
      as (n & m2 & o2 & n2 & Hload & Hnull & Hstore & Hl2 & Hs2 & Hc2
          & Hload2 & Hnx2).
    assert (lists m2 !! tmp = Some o2) as Ho2
      by (rewrite Hl2; apply lookup_insert_eq).
    assert (∀ x, x ∉ cs.*1 → x ≠ a → heap m2 !! x = heap m !! x) as Hframe.
    { intros x Hx Hxa.
      rewrite (store_next_node_heap _ _ _ _ x Hstore)
        by (by apply last_ptr_not_in).
      simpl. by rewrite lookup_insert_ne. }
    set (m3 := {| lists := <[tmp := {| head_ := head_ o2;
                                       size_ := size_t_incr (size_ o2) |}]>
                             (lists m2);
                  heap := heap m2 |}).
    assert (heap m3 !! c.1 = Some nc) as Hnc3.
    { simpl. by rewrite Hframe. }
    cbn [AddToHead_loop input_ne input_deref input_incr
         BasicIterator_input first_ptr].
    unfold Iterator_ne, end_. cbn [node_].
    rewrite bool_decide_eq_false_2 by done. cbn [negb].
    erewrite bind_Ok.
    2:{ apply assert_holds. rewrite (bind_Ok _ _ _ _ _ Hload).
        unfold ret. by rewrite bool_decide_eq_true_2. }
    erewrite bind_Ok.
    2:{ unfold Iterator_deref. cbn [node_].
        erewrite bind_Ok by (by apply assert_holds).
        rewrite (bind_Ok _ _ _ _ _ (load_heap _ _ _ Hnc)). done. }
    rewrite Hvc.
    erewrite bind_Ok by reflexivity.
    rewrite (bind_Ok _ _ _ _ _ Hstore).
    rewrite (bind_Ok _ _ _ _ _ (incr_size_Ok _ _ _ Ho2)).
    rewrite (bind_Ok _ _ _ _ _ (Hload2 _)). rewrite Hnx2.
    erewrite bind_Ok.
    2:{ unfold Iterator_incr. cbn [node_].
        erewrite bind_Ok by (by apply assert_holds).
        fold m3. rewrite (bind_Ok _ _ _ _ _ (load_heap _ _ _ Hnc3)). done. }
    rewrite Hnx. fold m3.
    assert (last_ptr tmp (cs ++ [(a, c.2)]) = on_heap a) as <-.
    { unfold last_ptr. by rewrite last_snoc. }
    assert (∀ x, x ∈ rem.*1 → (x ∉ cs.*1) ∧ x ≠ a) as Hremx.
    { intros x Hx. split.
      - intros Hin. apply (Hdisj _ Hin). rewrite fmap_cons. by right.
      - intros ->. by apply (chain_not_allocated _ _ _ _ Hrem' Hfresh). }
    destruct (IH fuel tmp m3
                {| head_ := head_ o2; size_ := size_t_incr (size_ o2) |}
                (cs ++ [(a, c.2)]))
      as (m' & o' & cs' & Hrun & Hl' & Hc' & Hvs' & Hs' & Hfr' & Hnew');
      [apply lookup_insert_eq|exact Hc2| | | | |lia|].
    + rewrite <-Hnx. eapply seg_agree; [|exact Hrem']. intros x Hx. simpl.
      destruct (Hremx x Hx). by apply Hframe.
    + intros x Hx Hx'. rewrite fmap_app in Hx.
      apply elem_of_app in Hx as [Hx|Hx].
      * by destruct (Hremx x Hx').
      * simpl in Hx. apply list_elem_of_singleton in Hx as ->.
        by destruct (Hremx a Hx').
    + cbn [size_]. rewrite Hs2, Hs, length_app. cbn [length] in *.
      unfold size_t_incr. rewrite N.mod_small; unfold SIZE_MAX in *; lia.
    + rewrite length_app. cbn [length] in *. lia.
    + exists m', o', cs'. split_and!; [exact Hrun| |done| |done|..].
      * rewrite Hl'. simpl. rewrite Hl2. by rewrite !insert_insert_eq.
      * rewrite Hvs', fmap_app, fmap_cons. simpl. by rewrite <-app_assoc.
      * intros x Hx Hal.
        assert (x ≠ a) as Hxa.
        { intros ->. rewrite Hfresh in Hal. by destruct Hal. }
        rewrite Hfr'.
        -- simpl. by apply Hframe.
        -- rewrite fmap_app. intros [?|Hin]%elem_of_app; [done|].
           simpl in Hin. by apply list_elem_of_singleton in Hin.
        -- simpl. by rewrite Hframe.
      * intros x Hx. destruct (Hnew' x Hx) as [Hin|Hnone].
        -- rewrite fmap_app in Hin.
           apply elem_of_app in Hin as [?|Hin]; [by left|].
           simpl in Hin. apply list_elem_of_singleton in Hin as ->.
           by right.
        -- simpl in Hnone. destruct (decide (x ∈ cs.*1)); [by left|].
           destruct (decide (x = a)) as [->|]; [by right|].
           right. by rewrite <-Hframe.
Qed.

(** X22.  [AddToHead(other.begin(), other.end())], with the iterators of
    a list [other] that is not const, on two distinct well-formed lists
    that share no node: [this] ends up with the elements of [other], in
    order and with [GetSize()] their number, in nodes that were all
    newly allocated, so it shares no node with [other]; [other] keeps its
    cells; the nodes [this] had before are freed; both lists are well
    formed and no other list object is touched. *)
Theorem AddToHead_makes_a_deep_copy this other m cs_t cs_o :
  this ≠ other →
  well_formed m this = true →
  well_formed m other = true →
  cells m this = Some cs_t →
  cells m other = Some cs_o →
  Forall (λ a, a ∉ cs_o.*1) cs_t.*1 →
  ∃ b m' cs',
    begin_ other m = Ok b m ∧
    AddToHead NDEBUG (InputIterator0 := BasicIterator_input NDEBUG)
      this b end_ m = Ok tt m' ∧
    cells m' this = Some cs' ∧
    elements m' this = elements m other ∧
    GetSize this m' = Ok (N.of_nat (length cs_o)) m' ∧
    (∀ a, a ∈ cs'.*1 → heap m !! a = None) ∧
    cells m' other = Some cs_o ∧
    well_formed m' this = true ∧
    well_formed m' other = true ∧
    (∀ a, a ∈ cs_t.*1 → heap m' !! a = None) ∧
    (∀ l, l ≠ this → lists m' !! l = lists m !! l).
Proof.
  intros Hne Hwft Hwfo Hcst Hcso Hdisj.
  rewrite list.Forall_forall in Hdisj.
  apply well_formed_chain in Hwft as (ot & cs1 & Hot & Hct & Hst & Hmt).
  apply well_formed_chain in Hwfo as (oo & cs2 & Hoo & Hco & Hso & Hmo).
  assert (cs1 = cs_t) as ->.
  { apply cells_chain in Hcst as (o' & Ho' & Hc'). simplify_eq.
    by eapply chain_det. }
  assert (cs2 = cs_o) as ->.
  { apply cells_chain in Hcso as (o' & Ho' & Hc'). simplify_eq.
    by eapply chain_det. }
  pose proof (chain_first_ptr _ _ _ Hco) as Hfirst.
  assert (other ≠ this) as Hne' by (by apply not_eq_sym).
  exists {| node_ := first_ptr cs_o |}.
  assert (begin_ other m = Ok {| node_ := first_ptr cs_o |} m) as Hbegin.
  { unfold begin_. rewrite (bind_Ok _ _ _ _ _ (load_head _ _ _ Hoo)).
    unfold ret. by rewrite Hfirst. }
  unfold AddToHead.
  erewrite bind_Ok by reflexivity.
  set (tmp := fresh (dom (lists m))).
  assert (lists m !! tmp = None) as Htmp
    by apply not_elem_of_dom, is_fresh.
  assert (this ≠ tmp) as Hnet.
  { intros Heq. rewrite <-Heq in Htmp. by rewrite Hot in Htmp. }
  assert (other ≠ tmp) as Hneo.
  { intros Heq. rewrite <-Heq in Htmp. by rewrite Hoo in Htmp. }
  set (t0 := {| head_ := Node_default; size_ := 0%N |}).
  set (m1 := {| lists := <[tmp := t0]> (lists m); heap := heap m |}).
  erewrite bind_Ok by reflexivity.
  destruct (AddToHead_loop_list cs_o (S (size (heap m))) tmp m1 t0 [])
    as (m2 & o2 & cs' & Hrun & Hl2 & Hc2 & Hvs & Hs2 & Hfr & Hnew).
  { apply lookup_insert_eq. }
  { done. }
  { simpl. by rewrite <-Hfirst. }
  { intros a Ha. by apply elem_of_nil in Ha. }
  { done. }
  { simpl. lia. }
  { apply chain_length_le in Hco. lia. }
  change (last_ptr tmp []) with (head_of tmp) in Hrun.
  rewrite (bind_Ok _ _ _ _ _ Hrun).
  assert (lists m2 !! this = Some ot) as H2this.
  { rewrite Hl2, lookup_insert_ne by done. simpl.
    by rewrite lookup_insert_ne. }
  assert (lists m2 !! tmp = Some o2) as H2tmp
    by (rewrite Hl2; apply lookup_insert_eq).
  destruct (swap_Ok this tmp ot o2 m2 Hnet H2this H2tmp)
    as (m3 & Hswap & Hh3 & H3this & H3tmp & H3other).
  rewrite (bind_Ok _ _ _ _ _ Hswap).
  assert (∀ a, a ∈ cs_t.*1 → is_Some (heap m !! a)) as Halloc_t.
  { intros a Ha. apply elem_of_dom, (chain_dom _ _ _ _ Hct Ha). }
  assert (∀ a, a ∈ cs_o.*1 → is_Some (heap m !! a)) as Halloc_o.
  { intros a Ha. apply elem_of_dom, (chain_dom _ _ _ _ Hco Ha). }
  assert (∀ a, is_Some (heap m !! a) → heap m3 !! a = heap m !! a) as Hold.
  { intros a Ha. rewrite Hh3. apply Hfr; [|done].
    intros Hin. by apply elem_of_nil in Hin. }
  assert (∀ a, a ∈ cs'.*1 → heap m !! a = None) as Hnew'.
  { intros a Ha. destruct (Hnew a Ha) as [Hin|?]; [|done].
    by apply elem_of_nil in Hin. }
  assert (∀ a, a ∈ cs'.*1 → a ∉ cs_t.*1) as Hnew_t.
  { intros a Ha Hin. destruct (Halloc_t a Hin) as [x Hx].
    by rewrite (Hnew' a Ha) in Hx. }
  unfold SingleLinkedList_destroy.
  erewrite bind_Ok.
  2:{ eapply (Clear_Ok tmp _ cs_t); [done| |simpl; lia].
      simpl. eapply seg_agree; [|exact Hct].
      intros a Ha. by apply Hold, Halloc_t. }
  unfold delete_object. simpl. rewrite lookup_insert_eq.
  assert (length cs' = length cs_o) as Hlen.
  { rewrite <-(length_fmap snd cs'), Hvs. simpl. by rewrite length_fmap. }
  set (m5 := {| lists := _; heap := _ |}).
  assert (lists m5 !! this =
          Some {| head_ := {| value := value (head_ ot);
                              next_node := next_node (head_ o2) |};
                  size_ := size_ o2 |}) as H5this.
  { simpl. by rewrite lookup_delete_ne, lookup_insert_ne. }
  assert (∀ l, l ≠ this → lists m5 !! l = lists m !! l) as H5other.
  { intros l Hl. simpl. destruct (decide (l = tmp)) as [->|Hlt].
    - by rewrite lookup_delete_eq.
    - rewrite lookup_delete_ne, lookup_insert_ne, H3other, Hl2 by done.
      rewrite lookup_insert_ne by done. simpl.
      by rewrite lookup_insert_ne. }
  assert (chain (heap m5) (next_node (head_ o2)) cs') as Hc5.
  { eapply seg_agree; [|exact Hc2]. intros a Ha. simpl.
    rewrite lookup_foldl_delete, decide_False by (by apply Hnew_t).
    by rewrite Hh3. }
  assert (chain (heap m5) (next_node (head_ oo)) cs_o) as Hc5o.
  { eapply seg_agree; [|exact Hco]. intros a Ha. simpl.
    rewrite lookup_foldl_delete, decide_False.
    - by apply Hold, Halloc_o.
    - intros Hin. by apply (Hdisj a Hin). }
  assert (cells m5 this = Some cs') as Hcells5.
  { apply cells_chain. eexists. split; [exact H5this|exact Hc5]. }
  assert (cells m5 other = Some cs_o) as Hcells5o.
  { apply cells_chain. exists oo. rewrite H5other by done.
    split; [exact Hoo|exact Hc5o]. }
  exists m5, cs'. split_and!; [done|done|done| | |done|done| | | |done].
  - unfold elements. rewrite Hcells5, Hcso, Hvs. done.
  - unfold GetSize. rewrite (read_size_Ok _ _ _ H5this). cbn [size_].
    by rewrite Hs2, Hlen.
  - apply well_formed_chain. eexists _, cs'.
    split_and!; [done|done|done|]. cbn [size_]. rewrite Hs2, Hlen. lia.
  - apply well_formed_chain. exists oo, cs_o.
    split_and!; [by rewrite H5other by done|done..].
  - intros a Ha. simpl. by rewrite lookup_foldl_delete, decide_True.
Qed.

End Properties.

(** * The claims that the code breaks, on sample lists *)

Section Defects.

Import Samples.

(** The samples are what their names say. *)
Example samples_hold_their_elements :
  elements empty_list 1 = Some [] ∧
  elements list_1 1 = Some [1%Z] ∧
  elements list_1_2 1 = Some [1; 2]%Z ∧
  elements list_1_2_3 1 = Some [1; 2; 3]%Z ∧
  elements lists_1_and_2 1 = Some [1%Z] ∧
  elements lists_1_and_2 2 = Some [2%Z] ∧
  elements lists_1_and_1 1 = Some [1%Z] ∧
  elements lists_1_and_1 2 = Some [1%Z].
Proof. split_and!; by vm_compute. Qed.

Example samples_are_well_formed :
  well_formed empty_list 1 = true ∧
  well_formed list_1 1 = true ∧
  well_formed list_1_2 1 = true ∧
  well_formed list_1_2_3 1 = true ∧
  well_formed lists_1_and_2 1 = true ∧
  well_formed lists_1_and_2 2 = true ∧
  well_formed lists_1_and_1 1 = true ∧
  well_formed lists_1_and_1 2 = true.
Proof. split_and!; by vm_compute. Qed.

(** C1.  In the list [{1, 2}], [InsertAfter(before_begin(), 0)] returns
    an iterator to the new node (address 3, holding 0), but the list now
    holds [0] alone: the new node is created with a null [next_node], so
    the old successors 1 and 2 are cut off (and stay allocated), where
    the sequence should be [0, 1, 2]. *)
Theorem InsertAfter_cuts_off_successors (NDEBUG : bool) :
  elements list_1_2 1 = Some [1; 2]%Z ∧
  ∃ it m',
    InsertAfter NDEBUG 1 (before_begin 1) 0%Z list_1_2 = Ok it m' ∧
    Iterator_deref NDEBUG it m' = Ok 0%Z m' ∧
    begin_ 1 m' = Ok it m' ∧
    elements m' 1 = Some [0%Z] ∧
    elements m' 1 ≠ Some [0; 1; 2]%Z ∧
    is_Some (heap m' !! 1%positive) ∧ is_Some (heap m' !! 2%positive).
Proof.
  split; [by vm_compute|].
  destruct NDEBUG; eexists _, _;
    (split; [vm_compute; reflexivity|]);
    split_and!; try (by vm_compute); by eexists.
Qed.

(** C2.  With [A = {1}] at address 1 and [B = {2}] at address 2,
    [A >= B] is evaluated as [!(A < A)]: the right operand is never
    looked at, so the result cannot be the negation of [A < B].  On
    iterators obtained from the overloads that do return, the comparison
    behind [<] is false for [A] against [A] and true for [A] against [B],
    so [!(A < A)] and [!(A < B)] differ.  Moreover [operator<] starts
    with [lhs.begin()] on a const list, which never returns, so neither
    [A < B] nor [A >= B] yields a value. *)
Theorem operator_ge_compares_lhs_with_itself (NDEBUG : bool) (depth : nat) :
  elements lists_1_and_2 1 = Some [1%Z] ∧
  elements lists_1_and_2 2 = Some [2%Z] ∧
  (∀ rhs, operator_ge Z.ltb NDEBUG depth 1 rhs lists_1_and_2 =
          operator_le Z.ltb NDEBUG depth 1 1 lists_1_and_2) ∧
  (let* a := begin_ 1 in
   lexicographical_compare Z.ltb NDEBUG a end_ a end_) lists_1_and_2
    = Ok false lists_1_and_2 ∧
  (let* a := begin_ 1 in
   let* b := begin_ 2 in
   lexicographical_compare Z.ltb NDEBUG a end_ b end_) lists_1_and_2
    = Ok true lists_1_and_2 ∧
  operator_lt Z.ltb NDEBUG depth 1 2 lists_1_and_2 = OutOfFuel ∧
  operator_ge Z.ltb NDEBUG depth 1 2 lists_1_and_2 = OutOfFuel.
Proof.
  split_and!; [by vm_compute..|done| | | |].
  - by destruct NDEBUG; vm_compute.
  - by destruct NDEBUG; vm_compute.
  - apply operator_lt_never_returns.
  - apply operator_ge_never_returns.
Qed.

(** C3.  The list [{1, 2, 3}] is well formed.  After
    [InsertAfter(begin(), 9)] two nodes are reachable from [head_], the
    first one and the new one, while [GetSize()] is 4: [size_] no longer
    counts the nodes of the list. *)
Theorem InsertAfter_breaks_size_invariant (NDEBUG : bool) :
  well_formed list_1_2_3 1 = true ∧
  ∃ pos it m',
    begin_ 1 list_1_2_3 = Ok pos list_1_2_3 ∧
    InsertAfter NDEBUG 1 pos 9%Z list_1_2_3 = Ok it m' ∧
    GetSize 1 m' = Ok 4%N m' ∧
    cells m' 1 = Some [(1%positive, 1%Z); (4%positive, 9%Z)] ∧
    well_formed m' 1 = false.
Proof.
  split; [by vm_compute|].
  destruct NDEBUG; eexists _, _, _;
    (split; [vm_compute; reflexivity|]);
    (split; [vm_compute; reflexivity|]);
    split_and!; by vm_compute.
Qed.

(** C4.  With two lists [{1}], equal in size and elements, [A == B] and
    [A != B] call [lhs.cbegin()], which calls [begin() const], which
    calls [cbegin()] again: no value is returned, however deep the calls
    are followed, where the answer should be [true] (as [std::equal]
    finds on iterators obtained from the overloads that do return). *)
Theorem operator_eq_never_returns_on_equal_lists
    (NDEBUG : bool) (depth : nat) :
  elements lists_1_and_1 1 = Some [1%Z] ∧
  elements lists_1_and_1 2 = Some [1%Z] ∧
  GetSize 1 lists_1_and_1 = Ok 1%N lists_1_and_1 ∧
  GetSize 2 lists_1_and_1 = Ok 1%N lists_1_and_1 ∧
  (let* a := begin_ 1 in
   let* b := begin_ 2 in
   std_equal Z.eqb NDEBUG a end_ b) lists_1_and_1 = Ok true lists_1_and_1 ∧
  operator_eq Z.eqb NDEBUG depth 1 2 lists_1_and_1 = OutOfFuel ∧
  operator_ne Z.eqb NDEBUG depth 1 2 lists_1_and_1 = OutOfFuel.
Proof.
  assert (operator_eq Z.eqb NDEBUG depth 1 2 lists_1_and_1 = OutOfFuel)
    as Heq.
  { erewrite operator_eq_outcome by (by vm_compute). done. }
  split_and!; [by vm_compute..| |done|].
  - by destruct NDEBUG; vm_compute.
  - unfold operator_ne, bind. by rewrite Heq.
Qed.

(** C5.  On the list [{1}], [InsertAfter(before_begin(), 0)] leaves the
    sequence [0] and [PushFront(0)] leaves [0, 1]; both report size 2. *)
Theorem InsertAfter_before_begin_is_not_PushFront (NDEBUG : bool) :
  ∃ it m1 m2,
    InsertAfter NDEBUG 1 (before_begin 1) 0%Z list_1 = Ok it m1 ∧
    PushFront 1 0%Z list_1 = Ok tt m2 ∧
    elements m1 1 = Some [0%Z] ∧
    elements m2 1 = Some [0; 1]%Z ∧
    GetSize 1 m1 = Ok 2%N m1 ∧
    GetSize 1 m2 = Ok 2%N m2.
Proof.
  destruct NDEBUG; eexists _, _, _;
    (split; [vm_compute; reflexivity|]);
    (split; [vm_compute; reflexivity|]);
    split_and!; by vm_compute.
Qed.

(** C8.  Copy construction returns for no source list.  From [{1, 2}],
    with assertions enabled, [assert(size_ == 0 && ...)] fails, since
    [size_] has just been initialised to 2; with assertions disabled, and
    from the empty list in either mode, [other.begin()] is the const
    overload, which never returns. *)
Theorem SingleLinkedList_copy_never_succeeds (depth : nat) :
  well_formed list_1_2 1 = true ∧
  well_formed empty_list 1 = true ∧
  SingleLinkedList_copy false depth 1 list_1_2 = AssertionFailed ∧
  SingleLinkedList_copy true depth 1 list_1_2 = OutOfFuel ∧
  (∀ NDEBUG, SingleLinkedList_copy NDEBUG depth 1 empty_list = OutOfFuel).
Proof.
  split_and!; [by vm_compute..| | |].
  - by erewrite SingleLinkedList_copy_outcome by (by vm_compute).
  - by erewrite SingleLinkedList_copy_outcome by (by vm_compute).
  - intros NDEBUG.
    erewrite SingleLinkedList_copy_outcome by (by vm_compute).
    by rewrite orb_true_r.
Qed.

(** C9.  The list [{1, 2, 3}] after [InsertAfter(begin(), 9)] holds the
    two nodes of 1 and 9 while [size_] is 4.  [Clear()] frees these two
    nodes and counts [size_] down once for each, so it returns with no
    element left but [GetSize() == 2] and [IsEmpty() == false], where the
    list should report size 0 and be empty. *)
Theorem Clear_after_InsertAfter_leaves_a_size (NDEBUG : bool) :
  ∃ pos it m1 m2,
    begin_ 1 list_1_2_3 = Ok pos list_1_2_3 ∧
    InsertAfter NDEBUG 1 pos 9%Z list_1_2_3 = Ok it m1 ∧
    elements m1 1 = Some [1; 9]%Z ∧
    GetSize 1 m1 = Ok 4%N m1 ∧
    Clear 1 m1 = Ok tt m2 ∧
    elements m2 1 = Some [] ∧
    GetSize 1 m2 = Ok 2%N m2 ∧
    IsEmpty 1 m2 = Ok false m2.
Proof.
  destruct NDEBUG; eexists _, _, _, _;
    (split; [vm_compute; reflexivity|]);
    (split; [vm_compute; reflexivity|]);
    (split; [vm_compute; reflexivity|]);
    (split; [vm_compute; reflexivity|]);
    (split; [vm_compute; reflexivity|]);
    split_and!; by vm_compute.
Qed.

End Defects.

(** * The claims that hold, on sample lists *)

Section Witnesses.

Import Samples.

Lemma PushFront_then_PopFront_witness :
  ∃ m', (PushFront 1 7%Z ;; PopFront false 1) list_1_2 = Ok tt m' ∧
        m' = list_1_2 ∧
        GetSize 1 m' = Ok 2%N m' ∧
        cells m' 1 = cells list_1_2 1 ∧
        elements m' 1 = elements list_1_2 1.
Proof.
  apply (PushFront_then_PopFront false 1 7%Z list_1_2 2%N);
    vm_compute; reflexivity.
Defined.

Lemma EraseAfter_removes_successor_witness :
  ∃ it m' c s n,
    EraseAfter false 1 {| node_ := on_heap 1 |} list_1_2_3 = Ok it m' ∧
    [(1%positive, 1%Z); (2%positive, 2%Z); (3%positive, 3%Z)] !! 1
      = Some c ∧
    cells m' 1 = Some [(1%positive, 1%Z); (3%positive, 3%Z)] ∧
    heap m' !! c.1 = None ∧
    GetSize 1 list_1_2_3 = Ok s list_1_2_3 ∧ (0 < s)%N ∧
    GetSize 1 m' = Ok (s - 1)%N m' ∧
    load (on_heap 1) m' = Ok n m' ∧
    next_node n = node_ it ∧
    node_ it = on_heap 3 ∧
    well_formed m' 1 = true.
Proof.
  apply (EraseAfter_removes_successor false 1 {| node_ := on_heap 1 |}
           list_1_2_3
           [(1%positive, 1%Z); (2%positive, 2%Z); (3%positive, 3%Z)] 1);
    vm_compute; (reflexivity || lia).
Defined.

Lemma Clear_empties_witness :
  ∃ m', Clear 1 list_1_2 = Ok tt m' ∧
        IsEmpty 1 m' = Ok true m' ∧
        GetSize 1 m' = Ok 0%N m' ∧
        elements m' 1 = Some [] ∧
        (IsEmpty 1 list_1_2 = Ok true list_1_2 → m' = list_1_2).
Proof.
  apply (Clear_empties 1 list_1_2). vm_compute. reflexivity.
Defined.

Lemma EraseAfter_before_begin_is_PopFront_witness :
  ∃ it m' x xs,
    EraseAfter false 1 (before_begin 1) list_1_2 = Ok it m' ∧
    PopFront false 1 list_1_2 = Ok tt m' ∧
    elements list_1_2 1 = Some (x :: xs) ∧
    elements m' 1 = Some xs ∧
    GetSize 1 m' = Ok (N.of_nat (length xs)) m' ∧
    begin_ 1 m' = Ok it m'.
Proof.
  apply (EraseAfter_before_begin_is_PopFront false 1 list_1_2);
    vm_compute; reflexivity.
Defined.

End Witnesses.

(** * The further properties, on sample lists *)

Section FurtherWitnesses.

Import Samples.

Lemma iterators_walk_the_list_witness :
  Iterator_incr false {| node_ := on_heap 1 |} list_1_2_3
    = Ok {| node_ := on_heap 2 |} list_1_2_3 ∧
  Iterator_deref false {| node_ := on_heap 2 |} list_1_2_3
    = Ok 2%Z list_1_2_3.
Proof.
  destruct (iterators_walk_the_list false 1 list_1_2_3 cells_1_2_3 1)
    as (_ & Hincr & _ & _ & Hderef);
    [vm_compute; reflexivity | vm_compute; lia |].
  split; [exact Hincr | exact (Hderef (2%positive, 2%Z) eq_refl)].
Defined.

Lemma iterators_equal_iff_same_place_witness :
  Iterator_eq {| node_ := on_heap 1 |} {| node_ := on_heap 3 |} = false.
Proof.
  destruct (iterators_equal_iff_same_place 1 list_1_2_3 cells_1_2_3 1 3)
    as [Heq _]; [vm_compute; reflexivity | vm_compute; lia..|].
  exact Heq.
Defined.

Lemma PushFront_prepends_witness :
  ∃ m', PushFront 1 0%Z list_1_2 = Ok tt m' ∧
        elements m' 1 = Some [0; 1; 2]%Z ∧
        well_formed m' 1 = true.
Proof.
  destruct (PushFront_prepends false 1 0%Z list_1_2 cells_1_2)
    as (a & m' & Hrun & _ & _ & Hel & _ & Hwf & _);
    [vm_compute; reflexivity..|].
  exists m'. split_and!; [exact Hrun | exact Hel | exact Hwf].
Defined.

Lemma PopFront_removes_first_witness :
  ∃ m', PopFront false 1 list_1_2 = Ok tt m' ∧
        elements m' 1 = Some [2%Z] ∧
        well_formed m' 1 = true.
Proof.
  destruct (PopFront_removes_first false 1 list_1_2
              (1%positive, 1%Z) [(2%positive, 2%Z)])
    as (m' & Hrun & _ & Hel & _ & _ & Hwf & _);
    [vm_compute; reflexivity..|].
  exists m'. split_and!; [exact Hrun | exact Hel | exact Hwf].
Defined.

Lemma PopFront_on_empty_list_witness :
  PopFront false 1 empty_list = AssertionFailed ∧
  PopFront true 1 empty_list = Undefined.
Proof.
  split.
  - apply (PopFront_on_empty_list false 1 empty_list);
      vm_compute; reflexivity.
  - apply (PopFront_on_empty_list true 1 empty_list);
      vm_compute; reflexivity.
Defined.

Lemma EraseAfter_without_successor_witness :
  EraseAfter false 1 {| node_ := on_heap 2 |} list_1_2 = Undefined.
Proof.
  apply (EraseAfter_without_successor false 1 {| node_ := on_heap 2 |}
           list_1_2 cells_1_2); vm_compute; reflexivity.
Defined.

Lemma InsertAfter_keeps_the_elements_up_to_pos_witness :
  ∃ it m', InsertAfter false 1 {| node_ := on_heap 1 |} 9%Z list_1_2_3
             = Ok it m' ∧
           elements m' 1 = Some [1; 9]%Z ∧
           GetSize 1 m' = Ok 4%N m' ∧
           well_formed m' 1 = false.
Proof.
  destruct (InsertAfter_keeps_the_elements_up_to_pos false 1
              {| node_ := on_heap 1 |} 9%Z list_1_2_3 cells_1_2_3 1)
    as (it & a & m' & Hrun & _ & _ & _ & _ & Hel & Hsz & Hwf);
    [vm_compute; reflexivity..|].
  exists it, m'. split_and!; [exact Hrun | exact Hel | exact Hsz | exact Hwf].
Defined.

Lemma InsertAfter_then_EraseAfter_at_the_last_place_witness :
  (InsertAfter false 1 {| node_ := on_heap 2 |} 9%Z ;;
   EraseAfter false 1 {| node_ := on_heap 2 |}) list_1_2
    = Ok end_ list_1_2.
Proof.
  apply (InsertAfter_then_EraseAfter_at_the_last_place false 1
           {| node_ := on_heap 2 |} 9%Z list_1_2 cells_1_2);
    vm_compute; reflexivity.
Defined.

Lemma Clear_frees_exactly_the_nodes_of_the_list_witness :
  ∃ m', Clear 1 lists_1_2_and_3 = Ok tt m' ∧
        heap m' !! 1%positive = None ∧
        cells m' 2 = Some [(3%positive, 3%Z)].
Proof.
  destruct (Clear_frees_exactly_the_nodes_of_the_list 1 lists_1_2_and_3
              cells_1_2)
    as (m' & Hrun & Hfreed & _ & _ & Hother);
    [vm_compute; reflexivity..|].
  exists m'. split_and!; [exact Hrun | | ].
  - apply Hfreed. vm_compute. left.
  - apply Hother; [done | vm_compute; reflexivity |].
    intros a Ha. vm_compute in Ha.
    apply list_elem_of_singleton in Ha as ->. vm_compute.
    by intros [?|[?|?%elem_of_nil]%elem_of_cons]%elem_of_cons.
Defined.

Lemma destructor_releases_the_list_witness :
  ∃ m', SingleLinkedList_destroy 1 lists_1_2_and_3 = Ok tt m' ∧
        lists m' !! 1%positive = None.
Proof.
  destruct (destructor_releases_the_list 1 lists_1_2_and_3 cells_1_2)
    as (m' & Hrun & Hgone & _);
    [vm_compute; reflexivity..|].
  exists m'. split; [exact Hrun | exact Hgone].
Defined.

Lemma swap_exchanges_the_contents_witness :
  ∃ m', swap 1 2 lists_1_2_and_3 = Ok tt m' ∧
        cells m' 1 = Some [(3%positive, 3%Z)] ∧
        cells m' 2 = Some cells_1_2.
Proof.
  destruct (swap_exchanges_the_contents 1 2 lists_1_2_and_3 cells_1_2
              [(3%positive, 3%Z)])
    as (m' & Hrun & _ & _ & H1 & H2 & _);
    [done | vm_compute; reflexivity..|].
  exists m'. split_and!; [exact Hrun | exact H1 | exact H2].
Defined.

Lemma swap_twice_changes_nothing_witness :
  (swap 1 2 ;; swap 1 2) lists_1_2_and_3 = Ok tt lists_1_2_and_3.
Proof.
  eapply swap_twice_changes_nothing; vm_compute; reflexivity.
Defined.

Lemma initializer_list_constructor_holds_the_values_witness :
  ∃ this m', SingleLinkedList_init false 7 [1; 2; 3]%Z empty_memory
               = Ok this m' ∧
             elements m' this = Some [1; 2; 3]%Z.
Proof.
  destruct (initializer_list_constructor_holds_the_values false 7
              [1; 2; 3]%Z empty_memory)
    as (this & m' & Hrun & _ & Hel & _); [vm_compute; discriminate|].
  exists this, m'. split; [exact Hrun | exact Hel].
Defined.

Lemma assignment_outcome_witness :
  assign false 5 2 1 lists_1_2_and_3 = AssertionFailed ∧
  assign false 5 1 1 lists_1_2_and_3 = Ok tt lists_1_2_and_3.
Proof.
  split.
  - erewrite (assignment_outcome false 5 2 1) by (vm_compute; reflexivity).
    reflexivity.
  - erewrite (assignment_outcome false 5 1 1) by (vm_compute; reflexivity).
    reflexivity.
Defined.

Lemma IsEmpty_iff_begin_is_end_witness :
  ∃ b it xs, IsEmpty 1 list_1_2 = Ok b list_1_2 ∧
             begin_ 1 list_1_2 = Ok it list_1_2 ∧
             elements list_1_2 1 = Some xs ∧
             b = Iterator_eq it end_.
Proof.
  destruct (IsEmpty_iff_begin_is_end 1 list_1_2)
    as (b & it & xs & H1 & H2 & H3 & _ & H4 & _);
    [vm_compute; reflexivity|].
  exists b, it, xs. split_and!; [exact H1 | exact H2 | exact H3 | exact H4].
Defined.

Lemma AddToHead_makes_a_deep_copy_witness :
  ∃ b m', begin_ 1 lists_1_2_and_3 = Ok b lists_1_2_and_3 ∧
          AddToHead false (InputIterator0 := BasicIterator_input false)
            2 b end_ lists_1_2_and_3 = Ok tt m' ∧
          elements m' 2 = Some [1; 2]%Z ∧
          cells m' 1 = Some cells_1_2.
Proof.
  destruct (AddToHead_makes_a_deep_copy false 2 1 lists_1_2_and_3
              [(3%positive, 3%Z)] cells_1_2)
    as (b & m' & cs' & Hb & Hrun & _ & Hel & _ & _ & Hother & _);
    [done | vm_compute; reflexivity.. | | ].
  - apply (bool_decide_unpack _). vm_compute. exact I.
  - exists b, m'. split_and!; [exact Hb | exact Hrun | | exact Hother].
    rewrite Hel. vm_compute. reflexivity.
Defined.

End FurtherWitnesses.
